(** * pdf-boundingbox: region text capture, overlay interaction, field store

    A shallow embedding of the TypeScript sources
      - utils/textCapture.ts        ([captureTextInBox])
      - components/BoundingBoxOverlay.tsx (the pointer handlers)
      - services/fieldStore.ts      (the zustand field store)
      - services/pdfTextExtractor.ts and App.tsx (bbox normalisation)

    Modelling conventions.
    - A JavaScript [number] is embedded twice.  The first part computes
      with exact rationals ([Q]): rounding error, overflow and signed zeros
      are not modelled, and where the source divides by a quantity that can
      be zero the quotient is a [jsnum], which adds the non-finite values
      of JavaScript arithmetic.  [Module Double] embeds the region capture
      and the overlay over IEEE 754 binary64 numbers, every operation
      rounded as JavaScript rounds it; the statements that depend on the
      branch a comparison of computed numbers takes are made there.
    - A JavaScript string that the code slices or trims is the list of its
      UTF-16 code units ([jsstring]); identifiers and colours, which the
      code only compares or stores, are [string]s.
    - [Array.prototype.sort] is a stable insertion sort in the first part
      and the engine's, a parameter, in [Module Double].
    - React state is a record; each handler is a function from the state
      before the event to the state after it. *)

From Stdlib Require Import PrimFloat.
From Stdlib Require FloatOps SpecFloat.
From Stdlib Require Import QArith Qround Qabs Qminmax Lqa.
From Stdlib Require Import ZArith Lia List String Ascii.
From stdpp Require Import gmap strings list pretty.
Import ListNotations.

(** A decimal literal of a double denotes the nearest binary64 value. *)
#[global] Set Warnings "-inexact-float".

(** ** JavaScript numbers and strings *)

Definition Qltb (a b : Q) : bool := negb (Qle_bool b a).
Definition Qgtb (a b : Q) : bool := Qltb b a.
Definition Qgeb (a b : Q) : bool := Qle_bool b a.

(** [Math.round]: the nearest integer, ties towards plus infinity. *)
Definition Math_round (x : Q) : Z := Qfloor (x + (1 # 2))%Q.

(** The value of an arithmetic expression that need not be finite. *)
Inductive jsnum := Fin (q : Q) | PosInf | NegInf | NaN.

(** [a / b] for finite [a] and [b]; a zero divisor is the positive zero. *)
Definition js_div (a b : Q) : jsnum :=
  if Qeq_bool b 0 then
    if Qeq_bool a 0 then NaN else if Qltb 0 a then PosInf else NegInf
  else Fin (a / b).

(** [1 - x]. *)
Definition js_one_minus (x : jsnum) : jsnum :=
  match x with
  | Fin q => Fin (1 - q)
  | PosInf => NegInf
  | NegInf => PosInf
  | NaN => NaN
  end.

(** [Math.min(1, x)] and [Math.max(0, x)]. *)
Definition Math_min1 (x : jsnum) : jsnum :=
  match x with
  | Fin q => Fin (Qmin 1 q)
  | PosInf => Fin 1
  | NegInf => NegInf
  | NaN => NaN
  end.

Definition Math_max0 (x : jsnum) : jsnum :=
  match x with
  | Fin q => Fin (Qmax 0 q)
  | PosInf => PosInf
  | NegInf => Fin 0
  | NaN => NaN
  end.

(** [Math.min(...l)] and [Math.max(...l)]: the empty spread gives the
    infinities. *)
Definition Math_min_of (l : list Q) : jsnum :=
  match l with
  | [] => PosInf
  | h :: t => Fin (fold_left Qmin t h)
  end.

Definition Math_max_of (l : list Q) : jsnum :=
  match l with
  | [] => NegInf
  | h :: t => Fin (fold_left Qmax t h)
  end.

Definition jsstring := list N.

Definition js (s : string) : jsstring :=
  List.map N_of_ascii (list_ascii_of_string s).

(** White space and line terminators, as [String.prototype.trim] strips
    them. *)
Definition is_white (c : N) : bool :=
  ((9 <=? c) && (c <=? 13) || (c =? 32) || (c =? 160) || (c =? 5760)
   || (8192 <=? c) && (c <=? 8202) || (c =? 8232) || (c =? 8233)
   || (c =? 8239) || (c =? 8287) || (c =? 12288) || (c =? 65279))%N.

Fixpoint trimStart (s : jsstring) : jsstring :=
  match s with
  | c :: t => if is_white c then trimStart t else s
  | [] => []
  end.

Definition trim (s : jsstring) : jsstring :=
  rev (trimStart (rev (trimStart s))).

(** [String.prototype.slice]: a negative index counts from the end, both
    indices are clamped to the string, and an empty range gives [""]. *)
Definition rel_index (len k : Z) : Z :=
  if (k <? 0)%Z then Z.max (len + k) 0 else Z.min k len.

Definition slice (s : jsstring) (a b : Z) : jsstring :=
  let len := Z.of_nat (length s) in
  let from := rel_index len a in
  let to := rel_index len b in
  firstn (Z.to_nat (to - from)) (skipn (Z.to_nat from) s).

(** [Array.prototype.join] on strings. *)
Fixpoint join (sep : jsstring) (l : list jsstring) : jsstring :=
  match l with
  | [] => []
  | [s] => s
  | s :: t => s ++ sep ++ join sep t
  end.

(** ** types/index.ts *)

(** [OCRBBox], over the numbers its coordinates range over: [Q] for the
    boxes the capture and the overlay work on, [jsnum] where a coordinate
    can be non-finite. *)
Record OCRBBoxOf (num : Type) := mkBBox { x0 : num; y0 : num; x1 : num; y1 : num }.
Arguments mkBBox {num} _ _ _ _.
Arguments x0 {num} _.
Arguments y0 {num} _.
Arguments x1 {num} _.
Arguments y1 {num} _.

Abbreviation OCRBBox := (OCRBBoxOf Q).

Module OCRWord.
Record t := mk { id : string; text : jsstring; confidence : Q; bbox : OCRBBox }.
End OCRWord.

#[global] Instance Q_eq_dec : EqDecision Q.
Proof. solve_decision. Defined.

#[global] Instance OCRBBox_eq_dec : EqDecision OCRBBox.
Proof. solve_decision. Defined.

#[global] Instance OCRWord_eq_dec : EqDecision OCRWord.t.
Proof. solve_decision. Defined.

(** ** utils/textCapture.ts *)

Module Entry.
Record t := mk { text : jsstring; id : string; y0 : Q; x0 : Q }.
End Entry.

Record CaptureResult := mkCapture { cr_text : jsstring; cr_wordIds : list string }.

Definition ROW_TOL : Q := (8 # 1000)%Q.

(** [Array.prototype.sort] with a comparator, as a stable insertion sort.
    For a consistent comparator this is the one result every conforming
    engine returns; for an inconsistent one ECMAScript leaves the order to
    the engine. *)
Section Sort.
Context {A : Type} (cmp : A -> A -> Q).

(** [x] goes in front of the first element it does not compare greater
    than. *)
Fixpoint insert_sorted (x : A) (l : list A) : list A :=
  match l with
  | [] => [x]
  | h :: t => if Qle_bool (cmp x h) 0%Q then x :: h :: t
              else h :: insert_sorted x t
  end.

Fixpoint sort (l : list A) : list A :=
  match l with
  | [] => []
  | x :: t => insert_sorted x (sort t)
  end.

End Sort.

Definition cy (word : OCRWord.t) : Q :=
  ((y0 (OCRWord.bbox word) + y1 (OCRWord.bbox word)) / 2)%Q.

Definition overlapX0 (word : OCRWord.t) (box : OCRBBox) : Q :=
  Qmax (x0 (OCRWord.bbox word)) (x0 box).

Definition overlapX1 (word : OCRWord.t) (box : OCRBBox) : Q :=
  Qmin (x1 (OCRWord.bbox word)) (x1 box).

Definition wordW (word : OCRWord.t) : Q :=
  (x1 (OCRWord.bbox word) - x0 (OCRWord.bbox word))%Q.

Definition startRatio (word : OCRWord.t) (box : OCRBBox) : Q :=
  Qmax 0%Q ((x0 box - x0 (OCRWord.bbox word)) / wordW word)%Q.

Definition endRatio (word : OCRWord.t) (box : OCRBBox) : Q :=
  Qmin 1%Q ((x1 box - x0 (OCRWord.bbox word)) / wordW word)%Q.

Definition startChar (word : OCRWord.t) (box : OCRBBox) : Z :=
  Math_round (startRatio word box * inject_Z (Z.of_nat (length (OCRWord.text word))))%Q.

Definition endChar (word : OCRWord.t) (box : OCRBBox) : Z :=
  Math_round (endRatio word box * inject_Z (Z.of_nat (length (OCRWord.text word))))%Q.

Definition fullyInside (word : OCRWord.t) (box : OCRBBox) : bool :=
  Qgeb (x0 (OCRWord.bbox word)) (x0 box) && Qle_bool (x1 (OCRWord.bbox word)) (x1 box).

Definition extracted (word : OCRWord.t) (box : OCRBBox) : jsstring :=
  if fullyInside word box then OCRWord.text word
  else trim (slice (OCRWord.text word) (startChar word box) (endChar word box)).

(** The body of the [for] loop for one word: [None] for each [continue]
    and for an empty [extracted], otherwise the entry that is pushed. *)
Definition captureWord (box : OCRBBox) (word : OCRWord.t) : option Entry.t :=
  if Qltb (cy word) (y0 box) || Qgtb (cy word) (y1 box) then None
  else if Qgeb (overlapX0 word box) (overlapX1 word box) then None
  else if (length (OCRWord.text word) =? 0)%nat then None
  else match extracted word box with
       | [] => None
       | (_ :: _) as e =>
           Some (Entry.mk e (OCRWord.id word) (y0 (OCRWord.bbox word))
                          (overlapX0 word box))
       end.

Fixpoint collect (box : OCRBBox) (words : list OCRWord.t) : list Entry.t :=
  match words with
  | [] => []
  | word :: rest =>
      match captureWord box word with
      | Some e => e :: collect box rest
      | None => collect box rest
      end
  end.

Definition readingOrder (a b : Entry.t) : Q :=
  if Qgtb (Qabs (Entry.y0 a - Entry.y0 b)%Q) ROW_TOL
  then (Entry.y0 a - Entry.y0 b)%Q
  else (Entry.x0 a - Entry.x0 b)%Q.

Definition captured (words : list OCRWord.t) (box : OCRBBox) : list Entry.t :=
  sort readingOrder (collect box words).

Definition captureTextInBox (words : list OCRWord.t) (box : OCRBBox) : CaptureResult :=
  let c := captured words box in
  mkCapture (join (js " ") (List.map Entry.text c)) (List.map Entry.id c).

(** The example of the specification: the word "HELLO" and the left half
    of its box. *)
Definition hello (i : string) (c : Q) : OCRWord.t :=
  OCRWord.mk i (js "HELLO") c (mkBBox 0 0 1 (1 # 10))%Q.

Definition leftHalf : OCRBBox := (mkBBox 0 0 (1 # 2) (1 # 10))%Q.

Definition unitBox : OCRBBox := (mkBBox 0 0 1 1)%Q.

(** A word of zero width in the middle of the page. *)
Definition thinWord : OCRWord.t :=
  OCRWord.mk "1-0" (js "A") 90 (mkBBox (1 # 2) (1 # 10) (1 # 2) (2 # 10))%Q.

(** Two words of one line: "A" at x 0.10 and top 0.005, "B" at x 0.20 and
    top 0. *)
Definition wordA : OCRWord.t :=
  OCRWord.mk "a" (js "A") 90 (mkBBox (10 # 100) (5 # 1000) (15 # 100) (25 # 1000))%Q.
Definition wordB : OCRWord.t :=
  OCRWord.mk "b" (js "B") 90 (mkBBox (20 # 100) 0 (30 # 100) (20 # 1000))%Q.

(** Vocabulary for the properties of the capture. *)

(** The word's box lies within [box], edges included. *)
Definition containedIn (word : OCRWord.t) (box : OCRBBox) : Prop :=
  let b := OCRWord.bbox word in
  (x0 box <= x0 b /\ x0 b <= x1 b /\ x1 b <= x1 box /\
   y0 box <= y0 b /\ y0 b <= y1 b /\ y1 b <= y1 box)%Q.

(** ** services/fieldStore.ts *)

Module FieldAnnotation.
Record t := mk {
  id : string;
  pageNumber : Z;
  label : jsstring;
  value : jsstring;
  bbox : OCRBBoxOf jsnum;
  wordIds : list string;
  color : string;
  createdAt : Z
}.

(** [{ ...f, label }]. *)
Definition with_label (f : t) (l : jsstring) : t :=
  mk (id f) (pageNumber f) l (value f) (bbox f) (wordIds f) (color f) (createdAt f).
End FieldAnnotation.

Definition FIELD_COLORS : list string :=
  [ "#6c63ff"; "#e74c3c"; "#2ecc71"; "#f39c12";
    "#1abc9c"; "#e91e63"; "#3498db"; "#ff5722";
    "#9b59b6"; "#00bcd4" ]%string.

Definition mergeBBoxes (bboxes : list OCRBBox) : OCRBBoxOf jsnum :=
  mkBBox (Math_min_of (List.map x0 bboxes)) (Math_min_of (List.map y0 bboxes))
         (Math_max_of (List.map x1 bboxes)) (Math_max_of (List.map y1 bboxes)).

Definition finiteBBox (b : OCRBBox) : OCRBBoxOf jsnum :=
  mkBBox (Fin (x0 b)) (Fin (y0 b)) (Fin (x1 b)) (Fin (y1 b)).

(** The data of the store; its methods are the functions below. *)
Record FieldState := mkFieldState {
  fields : gmap Z (list FieldAnnotation.t);
  colorIndex : nat
}.

Definition initialFieldState : FieldState := mkFieldState ∅ 0.

Definition getPageFields (pageNumber : Z) (s : FieldState) : list FieldAnnotation.t :=
  default [] (fields s !! pageNumber).

Definition storeField (field : FieldAnnotation.t) (s : FieldState) : FieldState :=
  let existing := default [] (fields s !! FieldAnnotation.pageNumber field) in
  mkFieldState (<[FieldAnnotation.pageNumber field := existing ++ [field]]> (fields s))
               (colorIndex s + 1).

(** [FIELD_COLORS[i]]; the empty string stands for [undefined]. *)
Definition colorAt (i : nat) : string := nth i FIELD_COLORS ""%string.

Definition nextColor (s : FieldState) : string :=
  colorAt (colorIndex s mod length FIELD_COLORS).

(** [crypto.randomUUID()] and [Date.now()] are inputs: [uuid] and [now]. *)
Definition addField (uuid : string) (now : Z)
    (pageNumber : Z) (label : jsstring) (words : list OCRWord.t)
    (s : FieldState) : FieldAnnotation.t * FieldState :=
  let field :=
    FieldAnnotation.mk uuid pageNumber label
      (join (js " ") (List.map OCRWord.text words))
      (mergeBBoxes (List.map OCRWord.bbox words))
      (List.map OCRWord.id words)
      (nextColor s) now in
  (field, storeField field s).

Definition addFieldRect (uuid : string) (now : Z)
    (pageNumber : Z) (label : jsstring) (bbox : OCRBBox)
    (value : option jsstring) (wordIds : option (list string))
    (s : FieldState) : FieldAnnotation.t * FieldState :=
  let field :=
    FieldAnnotation.mk uuid pageNumber label
      (default [] value) (finiteBBox bbox) (default [] wordIds)
      (nextColor s) now in
  (field, storeField field s).

Definition removeField (id : string) (pageNumber : Z) (s : FieldState) : FieldState :=
  mkFieldState
    (<[pageNumber :=
         List.filter (fun f => negb (String.eqb (FieldAnnotation.id f) id))
                     (default [] (fields s !! pageNumber))]> (fields s))
    (colorIndex s).

Definition updateLabel (id : string) (pageNumber : Z) (label : jsstring)
    (s : FieldState) : FieldState :=
  mkFieldState
    (<[pageNumber :=
         List.map (fun f => if String.eqb (FieldAnnotation.id f) id
                            then FieldAnnotation.with_label f label else f)
                  (default [] (fields s !! pageNumber))]> (fields s))
    (colorIndex s).

Definition clearPage (pageNumber : Z) (s : FieldState) : FieldState :=
  mkFieldState (delete pageNumber (fields s)) (colorIndex s).

Definition clearAll (s : FieldState) : FieldState := mkFieldState ∅ 0.

(** A call of a store method, and a session as the list of calls made. *)
Inductive call :=
| AddField (uuid : string) (now : Z) (pageNumber : Z) (label : jsstring)
           (words : list OCRWord.t)
| AddFieldRect (uuid : string) (now : Z) (pageNumber : Z) (label : jsstring)
               (bbox : OCRBBox) (value : option jsstring)
               (wordIds : option (list string))
| RemoveField (id : string) (pageNumber : Z)
| UpdateLabel (id : string) (pageNumber : Z) (label : jsstring)
| ClearPage (pageNumber : Z)
| ClearAll.

(** The state after a call and the annotation it returns, if any. *)
Definition perform (c : call) (s : FieldState) : option FieldAnnotation.t * FieldState :=
  match c with
  | AddField u n p l ws => let r := addField u n p l ws s in (Some (fst r), snd r)
  | AddFieldRect u n p l b v ids =>
      let r := addFieldRect u n p l b v ids s in (Some (fst r), snd r)
  | RemoveField i p => (None, removeField i p s)
  | UpdateLabel i p l => (None, updateLabel i p l s)
  | ClearPage p => (None, clearPage p s)
  | ClearAll => (None, clearAll s)
  end.

(** Runs a session from [s]: the annotations created, oldest first, and the
    final state. *)
Fixpoint session (cs : list call) (s : FieldState) : list FieldAnnotation.t * FieldState :=
  match cs with
  | [] => ([], s)
  | c :: rest =>
      let '(made, s') := perform c s in
      let '(later, s'') := session rest s' in
      (match made with Some f => f :: later | None => later end, s'')
  end.

Definition isClearAll (c : call) : bool :=
  match c with ClearAll => true | _ => false end.

(** The page argument of a call; [clearAll] has none. *)
Definition pageOf (c : call) : option Z :=
  match c with
  | AddField _ _ p _ _ | AddFieldRect _ _ p _ _ _ _
  | RemoveField _ p | UpdateLabel _ p _ | ClearPage p => Some p
  | ClearAll => None
  end.

(** The annotations a session creates, oldest first, starting from the
    empty store. *)
Definition createdIn (cs : list call) : list FieldAnnotation.t :=
  fst (session cs initialFieldState).

(** A store with one field, "f1", on page 1. *)
Definition oneField : FieldState :=
  snd (addFieldRect "f1" 1000 1 (js "Total") unitBox None None initialFieldState).

(** A session that adds a field, resets the store and adds another. *)
Definition resetSession : list call :=
  [ AddFieldRect "f1" 1000 1 (js "Total") unitBox None None;
    ClearAll;
    AddFieldRect "f2" 2000 1 (js "Date") unitBox None None ].

(** ** components/BoundingBoxOverlay.tsx *)

Inductive AnnotationMode := none | highlight | rectangle | freehand | comment | field.

Definition isField (m : AnnotationMode) : bool :=
  match m with field => true | _ => false end.

Record Point := mkPoint { px : Q; py : Q }.
Record DragState := mkDrag { start : Point; current : Point }.

Record Props := mkProps {
  words : list OCRWord.t;
  pageNumber : Z;
  mode : AnnotationMode
}.

(** What a handler reads from its mouse event.  [norm] is [toNorm(e)], the
    pointer position in the overlay's normalized coordinates; [overlayPos]
    is the top left corner of the overlay's bounding rectangle, when there
    is one; [onBackground] is [e.target === e.currentTarget]. *)
Record MouseEvent := mkMouse {
  clientX : Q;
  clientY : Q;
  shiftKey : bool;
  onBackground : bool;
  norm : Point;
  overlayPos : option Point
}.

(** The component's [useState] cells and its two refs. *)
Record Overlay := mkOverlay {
  tooltip : option (OCRWord.t * Point);
  selectedIds : gset string;
  labelPopup : option Point;
  labelInput : jsstring;
  dragState : option DragState;
  pendingRect : option OCRBBox;
  pendingWordsRef : list OCRWord.t;
  capturedTextRef : jsstring
}.

Definition initialOverlay : Overlay :=
  mkOverlay None ∅ None [] None None [] [].

Definition MIN_RECT : Q := (1 # 100)%Q.

Definition popupAt (e : MouseEvent) : Point :=
  mkPoint (clientX e - px (default (mkPoint 0 0) (overlayPos e)))
          (clientY e - py (default (mkPoint 0 0) (overlayPos e))).

Definition has (ids : gset string) (i : string) : bool := bool_decide (i ∈ ids).

Definition handleWordClick (p : Props) (e : MouseEvent) (word : OCRWord.t)
    (s : Overlay) : Overlay :=
  if negb (isField (mode p)) then s
  else
    let prev := selectedIds s in
    let i := OCRWord.id word in
    let next :=
      if shiftKey e then
        (if has prev i then prev ∖ {[ i ]} else prev ∪ {[ i ]})
      else if has prev i && (size prev =? 1)%nat then prev ∖ {[ i ]}
      else {[ i ]} in
    mkOverlay (tooltip s) next None (labelInput s) (dragState s)
              (pendingRect s) (pendingWordsRef s) (capturedTextRef s).

Definition handleMouseDown (p : Props) (e : MouseEvent) (s : Overlay) : Overlay :=
  if negb (isField (mode p)) then s
  else if negb (onBackground e) then s
  else mkOverlay (tooltip s) ∅ None (labelInput s)
                 (Some (mkDrag (norm e) (norm e)))
                 None (pendingWordsRef s) (capturedTextRef s).

Definition handleMouseMove (e : MouseEvent) (s : Overlay) : Overlay :=
  match dragState s with
  | None => s
  | Some d =>
      mkOverlay (tooltip s) (selectedIds s) (labelPopup s) (labelInput s)
                (Some (mkDrag (start d) (norm e)))
                (pendingRect s) (pendingWordsRef s) (capturedTextRef s)
  end.

(** The rectangle spanned by the drag's start and the release point. *)
Definition dragBBox (d : DragState) (e : MouseEvent) : OCRBBox :=
  mkBBox (Qmin (px (start d)) (px (norm e))) (Qmin (py (start d)) (py (norm e)))
         (Qmax (px (start d)) (px (norm e))) (Qmax (py (start d)) (py (norm e))).

Definition tooSmall (bbox : OCRBBox) : bool :=
  Qltb (x1 bbox - x0 bbox) MIN_RECT || Qltb (y1 bbox - y0 bbox) MIN_RECT.

Definition includes (ids : list string) (i : string) : bool :=
  existsb (String.eqb i) ids.

Definition handleMouseUp (p : Props) (e : MouseEvent) (s : Overlay) : Overlay :=
  match dragState s with
  | None => s
  | Some d =>
      let bbox := dragBBox d e in
      if tooSmall bbox then
        mkOverlay (tooltip s) ∅ None (labelInput s) None
                  (pendingRect s) (pendingWordsRef s) (capturedTextRef s)
      else
        let r := captureTextInBox (words p) bbox in
        mkOverlay (tooltip s) (selectedIds s) (Some (popupAt e)) [] None
                  (Some bbox)
                  (List.filter (fun w => includes (cr_wordIds r) (OCRWord.id w)) (words p))
                  (cr_text r)
  end.

Definition openPopupForSelection (e : MouseEvent) (s : Overlay) : Overlay :=
  mkOverlay (tooltip s) (selectedIds s) (Some (popupAt e)) [] (dragState s)
            (pendingRect s) (pendingWordsRef s) (capturedTextRef s).

Definition selectedWords (p : Props) (s : Overlay) : list OCRWord.t :=
  List.filter (fun w => has (selectedIds s) (OCRWord.id w)) (words p).

Definition hasWordSelection (p : Props) (s : Overlay) : bool :=
  negb (length (selectedWords p s) =? 0)%nat
  && match pendingRect s with None => true | Some _ => false end.

(** The submit handler; [uuid] and [now] feed the store's [addField] and
    [addFieldRect]. *)
Definition handleSaveField (uuid : string) (now : Z) (p : Props)
    (s : Overlay) (st : FieldState) : Overlay * FieldState :=
  let label := trim (labelInput s) in
  match label with
  | [] => (s, st)
  | _ :: _ =>
      match pendingRect s with
      | Some rect =>
          (mkOverlay (tooltip s) (selectedIds s) None [] (dragState s) None [] [],
           snd (addFieldRect uuid now (pageNumber p) label rect
                  (Some (capturedTextRef s))
                  (Some (List.map OCRWord.id (pendingWordsRef s))) st))
      | None =>
          if negb (size (selectedIds s) =? 0)%nat then
            (mkOverlay (tooltip s) ∅ None [] (dragState s) None
                       (pendingWordsRef s) (capturedTextRef s),
             snd (addField uuid now (pageNumber p) label (selectedWords p s) st))
          else
            (mkOverlay (tooltip s) (selectedIds s) None [] (dragState s) None
                       (pendingWordsRef s) (capturedTextRef s), st)
      end
  end.

Definition cancelPopup (s : Overlay) : Overlay :=
  mkOverlay (tooltip s) ∅ None (labelInput s) (dragState s) None
            (pendingWordsRef s) (capturedTextRef s).

(** The inline handlers of the rendered elements. *)
Definition clearSelection (s : Overlay) : Overlay :=
  mkOverlay (tooltip s) ∅ (labelPopup s) (labelInput s) (dragState s)
            (pendingRect s) (pendingWordsRef s) (capturedTextRef s).

Definition setLabelInput (v : jsstring) (s : Overlay) : Overlay :=
  mkOverlay (tooltip s) (selectedIds s) (labelPopup s) v (dragState s)
            (pendingRect s) (pendingWordsRef s) (capturedTextRef s).

Definition setTooltip (t : option (OCRWord.t * Point)) (s : Overlay) : Overlay :=
  mkOverlay t (selectedIds s) (labelPopup s) (labelInput s) (dragState s)
            (pendingRect s) (pendingWordsRef s) (capturedTextRef s).

(** The mounted component with its props and the store it writes to. *)
Record App := mkApp { props : Props; overlay : Overlay; store : FieldState }.

(** What can happen to the mounted component.  [Render] is the parent
    passing new props: a page turn, new words, or a change of mode. *)
Inductive event :=
| WordClick (e : MouseEvent) (word : OCRWord.t)
| WordEnter (e : MouseEvent) (word : OCRWord.t)
| WordLeave
| MouseDown (e : MouseEvent)
| MouseMove (e : MouseEvent)
| MouseUp (e : MouseEvent)
| LabelAsField (e : MouseEvent)
| ClearSelection
| TypeLabel (v : jsstring)
| Submit (uuid : string) (now : Z)
| Cancel
| DeleteField (id : string)
| Render (p : Props).

(** An element fires events only while it is rendered. *)
Definition enabled (ev : event) (a : App) : bool :=
  let p := props a in
  let s := overlay a in
  let popupOpen := match labelPopup s with Some _ => true | None => false end in
  match ev with
  | WordClick _ w | WordEnter _ w => bool_decide (w ∈ words p)
  | LabelAsField _ | ClearSelection =>
      isField (mode p) && hasWordSelection p s && negb popupOpen
  | TypeLabel _ | Submit _ _ | Cancel => popupOpen
  | DeleteField i =>
      isField (mode p)
      && existsb (fun f => String.eqb (FieldAnnotation.id f) i)
                 (getPageFields (pageNumber p) (store a))
  | WordLeave | MouseDown _ | MouseMove _ | MouseUp _ | Render _ => true
  end.

Definition handle (ev : event) (a : App) : App :=
  let p := props a in
  let s := overlay a in
  match ev with
  | WordClick e w => mkApp p (handleWordClick p e w s) (store a)
  | WordEnter e w =>
      if isField (mode p) then a
      else mkApp p (setTooltip (Some (w, mkPoint (clientX e) (clientY e))) s) (store a)
  | WordLeave => mkApp p (setTooltip None s) (store a)
  | MouseDown e => mkApp p (handleMouseDown p e s) (store a)
  | MouseMove e => mkApp p (handleMouseMove e s) (store a)
  | MouseUp e => mkApp p (handleMouseUp p e s) (store a)
  | LabelAsField e => mkApp p (openPopupForSelection e s) (store a)
  | ClearSelection => mkApp p (clearSelection s) (store a)
  | TypeLabel v => mkApp p (setLabelInput v s) (store a)
  | Submit uuid now =>
      let r := handleSaveField uuid now p s (store a) in mkApp p (fst r) (snd r)
  | Cancel => mkApp p (cancelPopup s) (store a)
  | DeleteField i => mkApp p s (removeField i (pageNumber p) (store a))
  | Render p' => mkApp p' s (store a)
  end.

Definition mounted (p : Props) (st : FieldState) : App := mkApp p initialOverlay st.

(** The states the component can be in: the freshly mounted one and every
    state an enabled event leads to. *)
Inductive reachable : App -> Prop :=
| reach_mount p st : reachable (mounted p st)
| reach_step a ev : reachable a -> enabled ev a = true -> reachable (handle ev a).

(** Runs a list of events, skipping those that are not enabled. *)
Fixpoint play (evs : list event) (a : App) : App :=
  match evs with
  | [] => a
  | ev :: rest => play rest (if enabled ev a then handle ev a else a)
  end.

Definition Idle (s : Overlay) : Prop :=
  selectedIds s = ∅ /\ dragState s = None /\ pendingRect s = None /\ labelPopup s = None.

(** A mouse event at the normalized point (x, y) of an overlay that is 800
    by 1000 pixels and sits at the origin; [bg] tells whether the pointer
    is on the overlay's background rather than on a word or field box. *)
Definition pointerAt (x y : Q) (bg : bool) : MouseEvent :=
  mkMouse (x * 800) (y * 1000) false bg (mkPoint x y) (Some (mkPoint 0 0)).

(** Page 1 with the word "HELLO" along its top, in field mode and out of
    it. *)
Definition fieldPage : Props := mkProps [hello "1-0" 90%Q] 1 field.
Definition viewPage : Props := mkProps [hello "1-0" 90%Q] 1 none.

(** Press on the background below the word, release over the word's left
    half, then click the word while the label prompt is open: a press and
    a release on the word, which change nothing, and the click. *)
Definition drawThenClick : list event :=
  [ MouseDown (pointerAt 0 (1 # 2) true);
    MouseUp (pointerAt (1 # 2) 0 false);
    MouseDown (pointerAt (3 # 4) (5 # 100) false);
    MouseUp (pointerAt (3 # 4) (5 # 100) false);
    WordClick (pointerAt (3 # 4) (5 # 100) false) (hello "1-0" 90%Q) ].

(** ** Bounding box normalisation: services/pdfTextExtractor.ts, App.tsx *)

(** [page.view], the 4-element [x0, y0, x1, y1] of the page in PDF user
    space. *)
Record PageView := mkView { view0 : Q; view1 : Q; view2 : Q; view3 : Q }.

(** A pdf.js text item; [transform] is the 6-element matrix
    [a, b, c, d, tx, ty]. *)
Record PdfTextItem := mkItem {
  str : jsstring;
  transform0 : Q; transform1 : Q; transform2 : Q;
  transform3 : Q; transform4 : Q; transform5 : Q;
  width : Q;
  height : Q
}.

Definition clamp01 (x : jsnum) : jsnum := Math_max0 (Math_min1 x).

Section Extractor.
  (** [Math.hypot] on two arguments, which has no rational value in
      general. *)
Variable Math_hypot : Q -> Q -> Q.

Definition pageWidth (view : PageView) : Q := (view2 view - view0 view)%Q.
Definition pageHeight (view : PageView) : Q := (view3 view - view1 view)%Q.

Definition itemHeight (item : PdfTextItem) : Q :=
    if Qltb 0 (height item) then height item
    else Math_hypot (transform0 item) (transform1 item).

  (** The bbox [extractPageText] gives the word made from [item]. *)
Definition embeddedBBox (view : PageView) (item : PdfTextItem) : OCRBBoxOf jsnum :=
    let tx := (transform4 item - view0 view)%Q in
    let ty := (transform5 item - view1 view)%Q in
    let itemWidth := Qabs (width item) in
    let x0 := js_div tx (pageWidth view) in
    let y0 := js_one_minus (js_div (ty + itemHeight item) (pageHeight view)) in
    let x1 := js_div (tx + itemWidth) (pageWidth view) in
    let y1 := js_one_minus (js_div ty (pageHeight view)) in
    mkBBox (clamp01 x0) (clamp01 y0) (clamp01 x1) (clamp01 y1).
End Extractor.

(** The bbox [runOCR] gives a recognised word on a canvas of [cw] by [ch]
    physical pixels. *)
Definition ocrBBox (b : OCRBBox) (cw ch : Q) : OCRBBoxOf jsnum :=
  mkBBox (js_div (x0 b) cw) (js_div (y0 b) ch)
         (js_div (x1 b) cw) (js_div (y1 b) ch).

(** The divisor the specification describes: 1 in place of an extent that
    is zero or negative. *)
Definition substitutedExtent (extent : Q) : Q :=
  if Qle_bool extent 0 then 1%Q else extent.

(** A value no division of finite numbers produces but a division by zero:
    an infinity or NaN. *)
Definition nonFinite (x : jsnum) : Prop :=
  match x with Fin _ => False | _ => True end.

(** What clamping leaves of a non-finite value. *)
Definition clampedNonFinite (x : jsnum) : Prop :=
  x = NaN \/ x = Fin 0 \/ x = Fin 1.

(** A word box in pixels, as the recogniser reports it. *)
Definition pixelBox : OCRBBox := (mkBBox 10 20 30 40)%Q.

(** Further vocabulary for the capture. *)

(** The word passes every guard of the loop and contributes an entry. *)
Definition capturable (box : OCRBBox) (word : OCRWord.t) : bool :=
  match captureWord box word with Some _ => true | None => false end.

(** [part] is a run of consecutive characters of [whole]. *)
Definition pieceOf (part whole : jsstring) : Prop :=
  exists before after, whole = before ++ part ++ after.

(** The string is not empty and neither begins nor ends with white
    space. *)
Definition trimmed (s : jsstring) : Prop :=
  (exists c rest, s = c :: rest /\ is_white c = false) /\
  (exists front c, s = front ++ [c] /\ is_white c = false).

(** Further vocabulary for the field store. *)

(** The id a call gives the annotation it creates. *)
Definition uuidOf (c : call) : option string :=
  match c with
  | AddField u _ _ _ _ | AddFieldRect u _ _ _ _ _ _ => Some u
  | _ => None
  end.

Definition uuidsOf (cs : list call) : list string := omap uuidOf cs.

(** The ids of the annotations of a page. *)
Definition pageIds (p : Z) (s : FieldState) : list string :=
  List.map FieldAnnotation.id (getPageFields p s).

(** [outer], a box with finite corners, contains the box [b]. *)
Definition encloses (outer : OCRBBoxOf jsnum) (b : OCRBBox) : Prop :=
  exists ox0 oy0 ox1 oy1,
    outer = mkBBox (Fin ox0) (Fin oy0) (Fin ox1) (Fin oy1) /\
    (ox0 <= x0 b /\ oy0 <= y0 b /\ x1 b <= ox1 /\ y1 b <= oy1)%Q.

(** Each side of [outer] is a side of one of the boxes [bs]. *)
Definition touches (outer : OCRBBoxOf jsnum) (bs : list OCRBBox) : Prop :=
  (exists b q, In b bs /\ x0 outer = Fin q /\ (q == x0 b)%Q) /\
  (exists b q, In b bs /\ y0 outer = Fin q /\ (q == y0 b)%Q) /\
  (exists b q, In b bs /\ x1 outer = Fin q /\ (q == x1 b)%Q) /\
  (exists b q, In b bs /\ y1 outer = Fin q /\ (q == y1 b)%Q).

(** [f'] is [f] with at most its label changed. *)
Definition sameButLabel (f f' : FieldAnnotation.t) : Prop :=
  FieldAnnotation.with_label f' (FieldAnnotation.label f) = f.

(** [toNorm]: the pointer position relative to the overlay's bounding
    rectangle, as fractions clamped to [0,1]; (0, 0) without a rectangle.
    The handlers above receive its result as [norm]. *)
Module DOMRect.
Record t := mk { left : Q; top : Q; width : Q; height : Q }.
End DOMRect.

Definition toNorm (clientX clientY : Q) (rect : option DOMRect.t) : jsnum * jsnum :=
  match rect with
  | None => (Fin 0, Fin 0)
  | Some r =>
      (Math_max0 (Math_min1 (js_div (clientX - DOMRect.left r) (DOMRect.width r))),
       Math_max0 (Math_min1 (js_div (clientY - DOMRect.top r) (DOMRect.height r))))
  end.

(** Further vocabulary for the overlay. *)

(** A number between 0 and 1. *)
Definition inUnit (x : jsnum) : Prop :=
  exists q, x = Fin q /\ (0 <= q <= 1)%Q.

(** [s'] is [s] up to the hover tooltip. *)
Definition sameButTooltip (s s' : Overlay) : Prop :=
  setTooltip (tooltip s) s' = s.

(** No [Render] of the run switches to field mode. *)
Definition staysOutOfFieldMode (evs : list event) : Prop :=
  Forall (fun ev => match ev with
                    | Render p => isField (mode p) = false
                    | _ => True
                    end) evs.

(** The gesture that makes a field from a drawn rectangle: press on the
    background, release, type the label, submit. *)
Definition drawField (press release : MouseEvent) (label : jsstring)
    (uuid : string) (now : Z) : list event :=
  [ MouseDown press; MouseUp release; TypeLabel label; Submit uuid now ].

(** ** services/ocrService.ts *)

(** What the recogniser returns: blocks of paragraphs of lines of words,
    any level of which can be missing, and the page's text. Boxes are in
    pixels of the recognised image. *)
Module Tesseract.
Record Word := mkWord { text : jsstring; confidence : Q; bbox : OCRBBox }.
Record Line := mkLine { words : option (list Word) }.
Record Paragraph := mkParagraph { lines : option (list Line) }.
Record Block := mkBlock { paragraphs : option (list Paragraph) }.
Record Data := mkData { blocks : option (list Block); pageText : jsstring }.
End Tesseract.

Module OCRResult.
Record t := mk { pageNumber : Z; words : list OCRWord.t; fullText : jsstring }.
End OCRResult.

(** [!s.trim()]. *)
Definition blank (s : jsstring) : bool :=
  match trim s with [] => true | _ :: _ => false end.

(** The template [`${pageNumber}-${wordIndex}`]. *)
Definition wordId (pageNumber : Z) (wordIndex : nat) : string :=
  pretty pageNumber +:+ "-" +:+ pretty wordIndex.

(** The innermost loop body: the words pushed so far and [wordIndex]. *)
Definition pushWord (pageNumber : Z) (acc : list OCRWord.t * nat)
    (word : Tesseract.Word) : list OCRWord.t * nat :=
  if blank (Tesseract.text word) then acc
  else (fst acc ++ [OCRWord.mk (wordId pageNumber (snd acc)) (Tesseract.text word)
                               (Tesseract.confidence word) (Tesseract.bbox word)],
        S (snd acc)).

Definition eachLine (pageNumber : Z) (acc : list OCRWord.t * nat)
    (line : Tesseract.Line) : list OCRWord.t * nat :=
  fold_left (pushWord pageNumber) (default [] (Tesseract.words line)) acc.

Definition eachParagraph (pageNumber : Z) (acc : list OCRWord.t * nat)
    (para : Tesseract.Paragraph) : list OCRWord.t * nat :=
  fold_left (eachLine pageNumber) (default [] (Tesseract.lines para)) acc.

Definition eachBlock (pageNumber : Z) (acc : list OCRWord.t * nat)
    (block : Tesseract.Block) : list OCRWord.t * nat :=
  fold_left (eachParagraph pageNumber) (default [] (Tesseract.paragraphs block)) acc.

(** [recognizePage], from the data the worker's [recognize] resolves to. *)
Definition recognizePage (data : Tesseract.Data) (pageNumber : Z) : OCRResult.t :=
  OCRResult.mk pageNumber
    (fst (fold_left (eachBlock pageNumber) (default [] (Tesseract.blocks data)) ([], 0)))
    (Tesseract.pageText data).

(** The recognised words in document order, and the same list numbered
    from [k] on. *)
Definition tokens (data : Tesseract.Data) : list Tesseract.Word :=
  flat_map (fun block =>
    flat_map (fun para =>
      flat_map (fun line => default [] (Tesseract.words line))
               (default [] (Tesseract.lines para)))
      (default [] (Tesseract.paragraphs block)))
    (default [] (Tesseract.blocks data)).

Definition spoken (w : Tesseract.Word) : bool := negb (blank (Tesseract.text w)).

Fixpoint numbered (pageNumber : Z) (k : nat) (ws : list Tesseract.Word) : list OCRWord.t :=
  match ws with
  | [] => []
  | w :: rest =>
      OCRWord.mk (wordId pageNumber k) (Tesseract.text w) (Tesseract.confidence w)
                 (Tesseract.bbox w)
      :: numbered pageNumber (S k) rest
  end.

(** ** services/pdfTextExtractor.ts, the whole function *)

(** A word as an adapter hands it to the application: an [OCRWord] whose
    coordinates are not known to be finite. *)
Module RawWord.
Record t := mk { id : string; text : jsstring; confidence : Q; bbox : OCRBBoxOf jsnum }.
End RawWord.

Module RawResult.
Record t := mk { pageNumber : Z; words : list RawWord.t; fullText : jsstring }.
End RawResult.

(** An entry of [textContent.items]: a text item, or anything else (an
    entry that is no object, or has no string [str]). *)
Inductive ContentItem := TextItem (item : PdfTextItem) | OtherItem.

(** The [filter] with its type guard. *)
Definition textItems (items : list ContentItem) : list PdfTextItem :=
  flat_map (fun it =>
              match it with
              | TextItem item =>
                  if (0 <? length (trim (str item)))%nat then [item] else []
              | OtherItem => []
              end) items.

(** The template [`${pageNumber}-emb-${index}`]. *)
Definition embeddedId (pageNumber : Z) (index : nat) : string :=
  pretty pageNumber +:+ "-emb-" +:+ pretty index.

Section ExtractPageText.
Variable Math_hypot : Q -> Q -> Q.

(** The loop body: the words pushed so far and [index]. *)
Definition pushItem (view : PageView) (pageNumber : Z)
    (acc : list RawWord.t * nat) (item : PdfTextItem) : list RawWord.t * nat :=
  match trim (str item) with
  | [] => acc
  | (_ :: _) as text =>
      (fst acc ++ [RawWord.mk (embeddedId pageNumber (snd acc)) text 100
                              (embeddedBBox Math_hypot view item)],
       S (snd acc))
  end.

(** [extractPageText], from the page's view and the items its
    [getTextContent] resolves to; [None] is [null]. *)
Definition extractPageText (view : PageView) (items : list ContentItem)
    (pageNumber : Z) : option RawResult.t :=
  let tis := textItems items in
  if (length tis =? 0)%nat then None
  else
    let ws := fst (fold_left (pushItem view pageNumber) tis ([], 0)) in
    if (length ws =? 0)%nat then None
    else Some (RawResult.mk pageNumber ws (join (js " ") (List.map str tis))).
End ExtractPageText.

(** ** App.tsx: the normalisation in runOCR *)

Definition normalizeWord (cw ch : Q) (w : OCRWord.t) : RawWord.t :=
  RawWord.mk (OCRWord.id w) (OCRWord.text w) (OCRWord.confidence w)
             (ocrBBox (OCRWord.bbox w) cw ch).

(** [normalized], for a canvas of [cw] by [ch] physical pixels. *)
Definition normalizeResult (result : OCRResult.t) (cw ch : Q) : RawResult.t :=
  RawResult.mk (OCRResult.pageNumber result)
               (List.map (normalizeWord cw ch) (OCRResult.words result))
               (OCRResult.fullText result).

(** Vocabulary for the adapters. *)

(** The NormalizedBBox invariant: finite corners, in order, within the
    unit square. *)
Definition normalizedBBox (b : OCRBBoxOf jsnum) : Prop :=
  exists bx0 by0 bx1 by1,
    b = mkBBox (Fin bx0) (Fin by0) (Fin bx1) (Fin by1) /\
    (0 <= bx0 /\ bx0 <= bx1 /\ bx1 <= 1 /\ 0 <= by0 /\ by0 <= by1 /\ by1 <= 1)%Q.

(** Two boxes with finite corners that agree as rationals. *)
Definition sameBBox (a b : OCRBBoxOf jsnum) : Prop :=
  match x0 a, y0 a, x1 a, y1 a, x0 b, y0 b, x1 b, y1 b with
  | Fin ax0, Fin ay0, Fin ax1, Fin ay1, Fin bx0, Fin by0, Fin bx1, Fin by1 =>
      (ax0 == bx0 /\ ay0 == by0 /\ ax1 == bx1 /\ ay1 == by1)%Q
  | _, _, _, _, _, _, _, _ => False
  end.

(** The box [b] with every pixel coordinate multiplied by [k]. *)
Definition scaleBBox (k : Q) (b : OCRBBox) : OCRBBox :=
  mkBBox (k * x0 b)%Q (k * y0 b)%Q (k * x1 b)%Q (k * y1 b)%Q.

(** The words [extractPageText] makes of the text items [tis], numbered
    from [k] on. *)
Fixpoint embeddedWords (Math_hypot : Q -> Q -> Q) (view : PageView) (pageNumber : Z)
    (k : nat) (tis : list PdfTextItem) : list RawWord.t :=
  match tis with
  | [] => []
  | item :: rest =>
      RawWord.mk (embeddedId pageNumber k) (trim (str item)) 100
                 (embeddedBBox Math_hypot view item)
      :: embeddedWords Math_hypot view pageNumber (S k) rest
  end.

(** An entry that yields no word: not a text item, or one whose string is
    blank. *)
Definition yieldsNoWord (it : ContentItem) : Prop :=
  match it with
  | TextItem item => trim (str item) = []
  | OtherItem => True
  end.

(** A US letter page and two entries of its text content: a text item at
    (50, 700), 40 wide and 12 high, and a blank one. *)
Definition letterView : PageView := mkView 0 0 612 792.

Definition totalItem : PdfTextItem :=
  (mkItem (js " Total ") 12 0 0 12 50 700 40 12)%Q.

Definition blankItem : PdfTextItem :=
  (mkItem (js "  ") 12 0 0 12 90 700 8 12)%Q.

(** A stand-in for [Math.hypot] in examples whose items carry their own
    height, so that it is not consulted. *)
Definition unusedHypot : Q -> Q -> Q := fun _ _ => 0%Q.

(** ** services/pdfExport.ts *)

(** A call [page.drawText(text, { x, y, size, font, color, opacity })] on
    the page with index [drawnOn]; the font is the embedded Helvetica and
    the colour white throughout. *)
Record DrawText := mkDraw {
  drawnOn : nat;
  drawnText : jsstring;
  drawX : Q;
  drawY : Q;
  drawSize : Q;
  drawOpacity : Q
}.

(** The inner loop, for the page with index [pageIndex] and height
    [pageHeight]. *)
Definition drawWords (pageIndex : nat) (pageHeight : Q) (ws : list OCRWord.t)
    : list DrawText :=
  flat_map (fun word =>
              if blank (OCRWord.text word) then []
              else
                let wordHeight := (y1 (OCRWord.bbox word) - y0 (OCRWord.bbox word))%Q in
                let x := x0 (OCRWord.bbox word) in
                let y := (pageHeight - y1 (OCRWord.bbox word))%Q in
                let fontSize := Qmax wordHeight 1 in
                [mkDraw pageIndex (OCRWord.text word) x y fontSize 0]) ws.

(** The [drawText] calls of [embedOCRText], in order. [pages] holds the
    height of each page of the document; [ocrResults] holds the entries of
    the map in insertion order. *)
Definition embedOCRText (pages : list Q) (ocrResults : list (Z * OCRResult.t))
    : list DrawText :=
  flat_map (fun entry =>
              let pageIndex := (fst entry - 1)%Z in
              if (pageIndex <? 0)%Z || (Z.of_nat (length pages) <=? pageIndex)%Z
              then []
              else
                match nth_error pages (Z.to_nat pageIndex) with
                | Some pageHeight =>
                    drawWords (Z.to_nat pageIndex) pageHeight
                              (OCRResult.words (snd entry))
                | None => []
                end) ocrResults.

(** ** components/Sidebar.tsx *)

Inductive SidebarTab := ocr_text | ocr_words | annotations | fieldsTab.

Record Sidebar := mkSidebar {
  activeTab : SidebarTab;
  editingFieldId : option string;
  editingLabel : jsstring
}.

Definition startEditLabel (f : FieldAnnotation.t) (sb : Sidebar) : Sidebar :=
  mkSidebar (activeTab sb) (Some (FieldAnnotation.id f)) (FieldAnnotation.label f).

Definition saveLabel (fieldId : string) (currentPage : Z) (sb : Sidebar)
    (st : FieldState) : Sidebar * FieldState :=
  (mkSidebar (activeTab sb) None (editingLabel sb),
   if blank (editingLabel sb) then st
   else updateLabel fieldId currentPage (trim (editingLabel sb)) st).

(** Every label in the store is non-blank and trimmed. *)
Definition cleanLabels (st : FieldState) : Prop :=
  forall p f, In f (getPageFields p st) ->
    FieldAnnotation.label f <> [] /\
    trim (FieldAnnotation.label f) = FieldAnnotation.label f.

(** ** App.tsx: pages and results *)

(** The cells of [App] that page navigation and the two text sources read
    and write. *)
Record Viewer := mkViewer {
  currentPage : Z;
  numPages : Z;
  isOCRRunning : bool;
  ocrResults : gmap Z RawResult.t;
  digitizedPages : gset Z
}.

Definition handleOpenFile (v : Viewer) : Viewer :=
  mkViewer 1 0 (isOCRRunning v) ∅ ∅.

Definition handleDocumentLoad (n : Z) (v : Viewer) : Viewer :=
  mkViewer 1 n (isOCRRunning v) (ocrResults v) (digitizedPages v).

Definition prevPage (v : Viewer) : Viewer :=
  mkViewer (Z.max 1 (currentPage v - 1)) (numPages v) (isOCRRunning v)
           (ocrResults v) (digitizedPages v).

Definition nextPage (v : Viewer) : Viewer :=
  mkViewer (Z.min (numPages v) (currentPage v + 1)) (numPages v) (isOCRRunning v)
           (ocrResults v) (digitizedPages v).

(** [handlePageProxy] is skipped for a page that has a result. *)
Definition pageProxyWanted (pageNumber : Z) (v : Viewer) : bool :=
  match ocrResults v !! pageNumber with Some _ => false | None => true end.

(** What [handlePageProxy] does once [extractPageText] has resolved to
    [result]. *)
Definition pageTextExtracted (pageNumber : Z) (result : option RawResult.t)
    (v : Viewer) : Viewer :=
  match result with
  | Some r =>
      mkViewer (currentPage v) (numPages v) (isOCRRunning v)
               (<[pageNumber := r]> (ocrResults v))
               (digitizedPages v ∪ {[ pageNumber ]})
  | None => v
  end.

(** [runOCR]: its start, with a canvas at hand, and its two ends:
    [recognizePage] resolved for the page current at the start, or
    failed. *)
Definition ocrStarted (v : Viewer) : Viewer :=
  mkViewer (currentPage v) (numPages v) true (ocrResults v) (digitizedPages v).

Definition ocrFinished (page : Z) (result : OCRResult.t) (cw ch : Q) (v : Viewer)
    : Viewer :=
  mkViewer (currentPage v) (numPages v) false
           (<[page := normalizeResult result cw ch]> (ocrResults v))
           (digitizedPages v).

Definition ocrFailed (v : Viewer) : Viewer :=
  mkViewer (currentPage v) (numPages v) false (ocrResults v) (digitizedPages v).

(** What can happen to the viewer. The completions are not tied to a
    start: a request can complete at any later time, whatever has happened
    in between. *)
Inductive viewerEvent :=
| OpenFile
| DocumentLoaded (n : Z)
| PrevPage
| NextPage
| PageTextExtracted (pageNumber : Z) (result : option RawResult.t)
| OcrStarted
| OcrFinished (page : Z) (result : OCRResult.t) (cw ch : Q)
| OcrFailed.

Definition viewerStep (ev : viewerEvent) (v : Viewer) : Viewer :=
  match ev with
  | OpenFile => handleOpenFile v
  | DocumentLoaded n => handleDocumentLoad n v
  | PrevPage => prevPage v
  | NextPage => nextPage v
  | PageTextExtracted p r => pageTextExtracted p r v
  | OcrStarted => ocrStarted v
  | OcrFinished p r cw ch => ocrFinished p r cw ch v
  | OcrFailed => ocrFailed v
  end.

Definition initialViewer : Viewer := mkViewer 1 0 false ∅ ∅.

(** Runs a list of viewer events, first to last. *)
Definition runViewer (evs : list viewerEvent) (v : Viewer) : Viewer :=
  fold_left (fun v ev => viewerStep ev v) evs v.

(** The event neither opens a file nor loads a document. *)
Definition keepsDocument (ev : viewerEvent) : bool :=
  match ev with OpenFile | DocumentLoaded _ => false | _ => true end.

(** The pixel box lies on a canvas of [cw] by [ch] pixels. *)
Definition onCanvas (b : OCRBBox) (cw ch : Q) : Prop :=
  (0 <= x0 b /\ x0 b <= x1 b /\ x1 b <= cw /\
   0 <= y0 b /\ y0 b <= y1 b /\ y1 b <= ch)%Q.

(** ** The capture and the overlay in double precision

    A JavaScript number is an IEEE 754 binary64 value and every arithmetic
    operation rounds to the nearest one.  Where the code compares the
    result of an operation (the midpoint of a word against the edges of the
    region, the size of a drawn rectangle against [MIN_RECT], the distance
    of two tops against [ROW_TOL]) the branch it takes depends on that
    rounding.  This module embeds [captureTextInBox] and the overlay's
    handlers over the binary64 numbers themselves: [+], [-], [*], [/], [<]
    and [<=] below are the binary64 operations, and a decimal literal
    denotes the nearest binary64 value, as it does in the source. *)

Module Double.

(** [Math.max(a, b)] and [Math.min(a, b)]: NaN when an argument is NaN, and
    the positive zero is the larger of the two zeros. *)
Definition Math_max (a b : float) : float :=
  if PrimFloat.is_nan a || PrimFloat.is_nan b then PrimFloat.nan
  else if (a <? b)%float then b
  else if (b <? a)%float then a
  else if PrimFloat.get_sign a then b else a.

Definition Math_min (a b : float) : float :=
  if PrimFloat.is_nan a || PrimFloat.is_nan b then PrimFloat.nan
  else if (a <? b)%float then a
  else if (b <? a)%float then b
  else if PrimFloat.get_sign a then a else b.

(** [Math.min(...l)] and [Math.max(...l)]. *)
Definition Math_min_of (l : list float) : float :=
  fold_left Math_min l PrimFloat.infinity.

Definition Math_max_of (l : list float) : float :=
  fold_left Math_max l PrimFloat.neg_infinity.

(** The number a length is: the conversion is exact below 2^53. *)
Definition Number_of_length (n : nat) : float :=
  FloatOps.SF2Prim
    (SpecFloat.binary_normalize FloatOps.prec FloatOps.emax (Z.of_nat n) 0 false).

(** An integer-valued number, as [Math.round] returns it. *)
Inductive integral := Int (z : Z) | IntNaN | IntInf (negative : bool).

(** [Math.round]: the nearest integer, ties towards plus infinity, taken of
    the exact value [m * 2^e] of its argument; NaN and the infinities are
    returned as they are. *)
Definition Math_round (x : float) : integral :=
  match FloatOps.Prim2SF x with
  | SpecFloat.S754_nan => IntNaN
  | SpecFloat.S754_infinity s => IntInf s
  | SpecFloat.S754_zero _ => Int 0
  | SpecFloat.S754_finite s m e =>
      let v := if s then Z.neg m else Z.pos m in
      Int (if (0 <=? e)%Z then v * 2 ^ e
           else (2 * v + 2 ^ (- e)) / 2 ^ (1 - e))%Z
  end.

(** [String.prototype.slice] on such indices: NaN counts as 0 and an
    infinity as the nearer end of the string. *)
Definition sliceIndex (len : Z) (i : integral) : Z :=
  match i with
  | Int z => z
  | IntNaN => 0
  | IntInf true => - len
  | IntInf false => len
  end.

Definition slice (s : jsstring) (a b : integral) : jsstring :=
  let len := Z.of_nat (length s) in
  slice s (sliceIndex len a) (sliceIndex len b).

(** *** types/index.ts *)

Module OCRWord.
Record t := mk { id : string; text : jsstring; confidence : float; bbox : OCRBBoxOf float }.

(** The same word: every field is the same value. *)
Definition eqb (v w : t) : bool :=
  String.eqb (id v) (id w) && bool_decide (text v = text w)
  && PrimFloat.Leibniz.eqb (confidence v) (confidence w)
  && PrimFloat.Leibniz.eqb (x0 (bbox v)) (x0 (bbox w))
  && PrimFloat.Leibniz.eqb (y0 (bbox v)) (y0 (bbox w))
  && PrimFloat.Leibniz.eqb (x1 (bbox v)) (x1 (bbox w))
  && PrimFloat.Leibniz.eqb (y1 (bbox v)) (y1 (bbox w)).
End OCRWord.

(** *** utils/textCapture.ts *)

Module Entry.
Record t := mk { text : jsstring; id : string; y0 : float; x0 : float }.
End Entry.

Definition ROW_TOL : float := 0.008%float.

Definition cy (word : OCRWord.t) : float :=
  ((y0 (OCRWord.bbox word) + y1 (OCRWord.bbox word)) / 2)%float.

Definition overlapX0 (word : OCRWord.t) (box : OCRBBoxOf float) : float :=
  Math_max (x0 (OCRWord.bbox word)) (x0 box).

Definition overlapX1 (word : OCRWord.t) (box : OCRBBoxOf float) : float :=
  Math_min (x1 (OCRWord.bbox word)) (x1 box).

Definition wordW (word : OCRWord.t) : float :=
  (x1 (OCRWord.bbox word) - x0 (OCRWord.bbox word))%float.

Definition n (word : OCRWord.t) : float :=
  Number_of_length (length (OCRWord.text word)).

Definition startRatio (word : OCRWord.t) (box : OCRBBoxOf float) : float :=
  Math_max 0%float ((x0 box - x0 (OCRWord.bbox word)) / wordW word)%float.

Definition endRatio (word : OCRWord.t) (box : OCRBBoxOf float) : float :=
  Math_min 1%float ((x1 box - x0 (OCRWord.bbox word)) / wordW word)%float.

Definition startChar (word : OCRWord.t) (box : OCRBBoxOf float) : integral :=
  Math_round (startRatio word box * n word)%float.

Definition endChar (word : OCRWord.t) (box : OCRBBoxOf float) : integral :=
  Math_round (endRatio word box * n word)%float.

Definition fullyInside (word : OCRWord.t) (box : OCRBBoxOf float) : bool :=
  (x0 box <=? x0 (OCRWord.bbox word))%float
  && (x1 (OCRWord.bbox word) <=? x1 box)%float.

Definition extracted (word : OCRWord.t) (box : OCRBBoxOf float) : jsstring :=
  if fullyInside word box then OCRWord.text word
  else trim (slice (OCRWord.text word) (startChar word box) (endChar word box)).

(** The body of the [for] loop for one word: [None] for each [continue]
    and for an empty [extracted], otherwise the entry that is pushed. *)
Definition captureWord (box : OCRBBoxOf float) (word : OCRWord.t) : option Entry.t :=
  if (cy word <? y0 box)%float || (y1 box <? cy word)%float then None
  else if (overlapX1 word box <=? overlapX0 word box)%float then None
  else if (length (OCRWord.text word) =? 0)%nat then None
  else match extracted word box with
       | [] => None
       | (_ :: _) as e =>
           Some (Entry.mk e (OCRWord.id word) (y0 (OCRWord.bbox word))
                          (overlapX0 word box))
       end.

Fixpoint collect (box : OCRBBoxOf float) (words : list OCRWord.t) : list Entry.t :=
  match words with
  | [] => []
  | word :: rest =>
      match captureWord box word with
      | Some e => e :: collect box rest
      | None => collect box rest
      end
  end.

Definition readingOrder (a b : Entry.t) : float :=
  if (ROW_TOL <? PrimFloat.abs (Entry.y0 a - Entry.y0 b))%float
  then (Entry.y0 a - Entry.y0 b)%float
  else (Entry.x0 a - Entry.x0 b)%float.

(** [Array.prototype.sort] belongs to the engine that runs the code and
    not to the code: given the comparator and the array it returns the
    array's new arrangement. *)
Definition engine : Type :=
  (Entry.t -> Entry.t -> float) -> list Entry.t -> list Entry.t.

(** *** components/BoundingBoxOverlay.tsx *)

Record Point := mkPoint { px : float; py : float }.
Record DragState := mkDrag { start : Point; current : Point }.

Record Props := mkProps {
  words : list OCRWord.t;
  pageNumber : Z;
  mode : AnnotationMode
}.

Module DOMRect.
Record t := mk { left : float; top : float; width : float; height : float }.
End DOMRect.

(** What a handler reads from its mouse event.  [rect] is
    [overlayRef.current?.getBoundingClientRect()] at the time of the
    event; [onBackground] is [e.target === e.currentTarget]. *)
Record MouseEvent := mkMouse {
  clientX : float;
  clientY : float;
  shiftKey : bool;
  onBackground : bool;
  rect : option DOMRect.t
}.

(** The component's [useState] cells and its two refs. *)
Record Overlay := mkOverlay {
  tooltip : option (OCRWord.t * Point);
  selectedIds : gset string;
  labelPopup : option Point;
  labelInput : jsstring;
  dragState : option DragState;
  pendingRect : option (OCRBBoxOf float);
  pendingWordsRef : list OCRWord.t;
  capturedTextRef : jsstring
}.

Definition initialOverlay : Overlay :=
  mkOverlay None ∅ None [] None None [] [].

Definition MIN_RECT : float := 0.01%float.

Definition toNorm (e : MouseEvent) : Point :=
  match rect e with
  | None => mkPoint 0 0
  | Some r =>
      mkPoint
        (Math_max 0 (Math_min 1 ((clientX e - DOMRect.left r) / DOMRect.width r)))%float
        (Math_max 0 (Math_min 1 ((clientY e - DOMRect.top r) / DOMRect.height r)))%float
  end.

(** [{ x: e.clientX - (overlayRect?.left ?? 0), y: e.clientY - (overlayRect?.top ?? 0) }]. *)
Definition popupAt (e : MouseEvent) : Point :=
  mkPoint (clientX e - match rect e with Some r => DOMRect.left r | None => 0 end)%float
          (clientY e - match rect e with Some r => DOMRect.top r | None => 0 end)%float.

Definition handleWordClick (p : Props) (e : MouseEvent) (word : OCRWord.t)
    (s : Overlay) : Overlay :=
  if negb (isField (mode p)) then s
  else
    let prev := selectedIds s in
    let i := OCRWord.id word in
    let next :=
      if shiftKey e then
        (if has prev i then prev ∖ {[ i ]} else prev ∪ {[ i ]})
      else if has prev i && (size prev =? 1)%nat then prev ∖ {[ i ]}
      else {[ i ]} in
    mkOverlay (tooltip s) next None (labelInput s) (dragState s)
              (pendingRect s) (pendingWordsRef s) (capturedTextRef s).

Definition handleMouseDown (p : Props) (e : MouseEvent) (s : Overlay) : Overlay :=
  if negb (isField (mode p)) then s
  else if negb (onBackground e) then s
  else mkOverlay (tooltip s) ∅ None (labelInput s)
                 (Some (mkDrag (toNorm e) (toNorm e)))
                 None (pendingWordsRef s) (capturedTextRef s).

Definition handleMouseMove (e : MouseEvent) (s : Overlay) : Overlay :=
  match dragState s with
  | None => s
  | Some d =>
      mkOverlay (tooltip s) (selectedIds s) (labelPopup s) (labelInput s)
                (Some (mkDrag (start d) (toNorm e)))
                (pendingRect s) (pendingWordsRef s) (capturedTextRef s)
  end.

(** The rectangle spanned by the drag's start and the release point. *)
Definition dragBBox (d : DragState) (e : MouseEvent) : OCRBBoxOf float :=
  let end_ := toNorm e in
  mkBBox (Math_min (px (start d)) (px end_)) (Math_min (py (start d)) (py end_))
         (Math_max (px (start d)) (px end_)) (Math_max (py (start d)) (py end_)).

Definition tooSmall (bbox : OCRBBoxOf float) : bool :=
  (x1 bbox - x0 bbox <? MIN_RECT)%float || (y1 bbox - y0 bbox <? MIN_RECT)%float.

Definition selectedWords (p : Props) (s : Overlay) : list OCRWord.t :=
  List.filter (fun w => has (selectedIds s) (OCRWord.id w)) (words p).

Definition hasWordSelection (p : Props) (s : Overlay) : bool :=
  negb (length (selectedWords p s) =? 0)%nat
  && match pendingRect s with None => true | Some _ => false end.

Definition openPopupForSelection (e : MouseEvent) (s : Overlay) : Overlay :=
  mkOverlay (tooltip s) (selectedIds s) (Some (popupAt e)) [] (dragState s)
            (pendingRect s) (pendingWordsRef s) (capturedTextRef s).

Definition cancelPopup (s : Overlay) : Overlay :=
  mkOverlay (tooltip s) ∅ None (labelInput s) (dragState s) None
            (pendingWordsRef s) (capturedTextRef s).

(** The inline handlers of the rendered elements. *)
Definition clearSelection (s : Overlay) : Overlay :=
  mkOverlay (tooltip s) ∅ (labelPopup s) (labelInput s) (dragState s)
            (pendingRect s) (pendingWordsRef s) (capturedTextRef s).

Definition setLabelInput (v : jsstring) (s : Overlay) : Overlay :=
  mkOverlay (tooltip s) (selectedIds s) (labelPopup s) v (dragState s)
            (pendingRect s) (pendingWordsRef s) (capturedTextRef s).

Definition setTooltip (t : option (OCRWord.t * Point)) (s : Overlay) : Overlay :=
  mkOverlay t (selectedIds s) (labelPopup s) (labelInput s) (dragState s)
            (pendingRect s) (pendingWordsRef s) (capturedTextRef s).

(** What the field store keeps of a number: its exact value, as a fraction
    in lowest terms. *)
Definition stored (x : float) : jsnum :=
  match FloatOps.Prim2SF x with
  | SpecFloat.S754_nan => NaN
  | SpecFloat.S754_infinity s => if s then NegInf else PosInf
  | SpecFloat.S754_zero _ => Fin 0
  | SpecFloat.S754_finite s m e =>
      let v := if s then Z.neg m else Z.pos m in
      Fin (if (0 <=? e)%Z then inject_Z (v * 2 ^ e)
           else Qred (Qmake v (Z.to_pos (2 ^ (- e)))))
  end.

Definition storedBBox (b : OCRBBoxOf float) : OCRBBoxOf jsnum :=
  mkBBox (stored (x0 b)) (stored (y0 b)) (stored (x1 b)) (stored (y1 b)).

(** The store's [mergeBBoxes], [addField] and [addFieldRect] on the
    overlay's words and rectangle. *)
Definition mergeBBoxes (bboxes : list (OCRBBoxOf float)) : OCRBBoxOf float :=
  mkBBox (Math_min_of (List.map x0 bboxes)) (Math_min_of (List.map y0 bboxes))
         (Math_max_of (List.map x1 bboxes)) (Math_max_of (List.map y1 bboxes)).

Definition addField (uuid : string) (now : Z)
    (pageNumber : Z) (label : jsstring) (words : list OCRWord.t)
    (s : FieldState) : FieldAnnotation.t * FieldState :=
  let field :=
    FieldAnnotation.mk uuid pageNumber label
      (join (js " ") (List.map OCRWord.text words))
      (storedBBox (mergeBBoxes (List.map OCRWord.bbox words)))
      (List.map OCRWord.id words)
      (nextColor s) now in
  (field, storeField field s).

Definition addFieldRect (uuid : string) (now : Z)
    (pageNumber : Z) (label : jsstring) (bbox : OCRBBoxOf float)
    (value : option jsstring) (wordIds : option (list string))
    (s : FieldState) : FieldAnnotation.t * FieldState :=
  let field :=
    FieldAnnotation.mk uuid pageNumber label
      (default [] value) (storedBBox bbox) (default [] wordIds)
      (nextColor s) now in
  (field, storeField field s).

(** The submit handler; [uuid] and [now] feed the store's [addField] and
    [addFieldRect]. *)
Definition handleSaveField (uuid : string) (now : Z) (p : Props)
    (s : Overlay) (st : FieldState) : Overlay * FieldState :=
  let label := trim (labelInput s) in
  match label with
  | [] => (s, st)
  | _ :: _ =>
      match pendingRect s with
      | Some rect =>
          (mkOverlay (tooltip s) (selectedIds s) None [] (dragState s) None [] [],
           snd (addFieldRect uuid now (pageNumber p) label rect
                  (Some (capturedTextRef s))
                  (Some (List.map OCRWord.id (pendingWordsRef s))) st))
      | None =>
          if negb (size (selectedIds s) =? 0)%nat then
            (mkOverlay (tooltip s) ∅ None [] (dragState s) None
                       (pendingWordsRef s) (capturedTextRef s),
             snd (addField uuid now (pageNumber p) label (selectedWords p s) st))
          else
            (mkOverlay (tooltip s) (selectedIds s) None [] (dragState s) None
                       (pendingWordsRef s) (capturedTextRef s), st)
      end
  end.

(** The mounted component with its props and the store it writes to. *)
Record App := mkApp { props : Props; overlay : Overlay; store : FieldState }.

(** What can happen to the mounted component.  [Render] is the parent
    passing new props: a page turn, new words, or a change of mode. *)
Inductive event :=
| WordClick (e : MouseEvent) (word : OCRWord.t)
| WordEnter (e : MouseEvent) (word : OCRWord.t)
| WordLeave
| MouseDown (e : MouseEvent)
| MouseMove (e : MouseEvent)
| MouseUp (e : MouseEvent)
| LabelAsField (e : MouseEvent)
| ClearSelection
| TypeLabel (v : jsstring)
| Submit (uuid : string) (now : Z)
| Cancel
| DeleteField (id : string)
| Render (p : Props).

(** An element fires events only while it is rendered. *)
Definition enabled (ev : event) (a : App) : bool :=
  let p := props a in
  let s := overlay a in
  let popupOpen := match labelPopup s with Some _ => true | None => false end in
  match ev with
  | WordClick _ w | WordEnter _ w => existsb (OCRWord.eqb w) (words p)
  | LabelAsField _ | ClearSelection =>
      isField (mode p) && hasWordSelection p s && negb popupOpen
  | TypeLabel _ | Submit _ _ | Cancel => popupOpen
  | DeleteField i =>
      isField (mode p)
      && existsb (fun f => String.eqb (FieldAnnotation.id f) i)
                 (getPageFields (pageNumber p) (store a))
  | WordLeave | MouseDown _ | MouseMove _ | MouseUp _ | Render _ => true
  end.

Section Engine.

Variable Array_sort : engine.

Definition captured (words : list OCRWord.t) (box : OCRBBoxOf float) : list Entry.t :=
  Array_sort readingOrder (collect box words).

Definition captureTextInBox (words : list OCRWord.t) (box : OCRBBoxOf float)
    : CaptureResult :=
  let c := captured words box in
  mkCapture (join (js " ") (List.map Entry.text c)) (List.map Entry.id c).

Definition handleMouseUp (p : Props) (e : MouseEvent) (s : Overlay) : Overlay :=
  match dragState s with
  | None => s
  | Some d =>
      let bbox := dragBBox d e in
      if tooSmall bbox then
        mkOverlay (tooltip s) ∅ None (labelInput s) None
                  (pendingRect s) (pendingWordsRef s) (capturedTextRef s)
      else
        let r := captureTextInBox (words p) bbox in
        mkOverlay (tooltip s) (selectedIds s) (Some (popupAt e)) [] None
                  (Some bbox)
                  (List.filter (fun w => includes (cr_wordIds r) (OCRWord.id w)) (words p))
                  (cr_text r)
  end.

Definition handle (ev : event) (a : App) : App :=
  let p := props a in
  let s := overlay a in
  match ev with
  | WordClick e w => mkApp p (handleWordClick p e w s) (store a)
  | WordEnter e w =>
      if isField (mode p) then a
      else mkApp p (setTooltip (Some (w, mkPoint (clientX e) (clientY e))) s) (store a)
  | WordLeave => mkApp p (setTooltip None s) (store a)
  | MouseDown e => mkApp p (handleMouseDown p e s) (store a)
  | MouseMove e => mkApp p (handleMouseMove e s) (store a)
  | MouseUp e => mkApp p (handleMouseUp p e s) (store a)
  | LabelAsField e => mkApp p (openPopupForSelection e s) (store a)
  | ClearSelection => mkApp p (clearSelection s) (store a)
  | TypeLabel v => mkApp p (setLabelInput v s) (store a)
  | Submit uuid now =>
      let r := handleSaveField uuid now p s (store a) in mkApp p (fst r) (snd r)
  | Cancel => mkApp p (cancelPopup s) (store a)
  | DeleteField i => mkApp p s (removeField i (pageNumber p) (store a))
  | Render p' => mkApp p' s (store a)
  end.

Definition mounted (p : Props) (st : FieldState) : App := mkApp p initialOverlay st.

(** The states the component can be in: the freshly mounted one and every
    state an enabled event leads to. *)
Inductive reachable : App -> Prop :=
| reach_mount p st : reachable (mounted p st)
| reach_step a ev : reachable a -> enabled ev a = true -> reachable (handle ev a).

(** Runs a list of events, skipping those that are not enabled. *)
Fixpoint play (evs : list event) (a : App) : App :=
  match evs with
  | [] => a
  | ev :: rest => play rest (if enabled ev a then handle ev a else a)
  end.

End Engine.

(** *** Engines *)

(** The number [SortCompare] makes of the comparator's result: NaN counts
    as 0. *)
Definition sortCompare (cmp : Entry.t -> Entry.t -> float) (x y : Entry.t) : float :=
  let v := cmp x y in if PrimFloat.is_nan v then 0%float else v.

(** The engine's result holds the entries it was given, each as often as
    before. *)
Definition rearranges (srt : engine) : Prop :=
  forall cmp l, Permutation (srt cmp l) l.

(** Every entry of [l] but the last is followed by one the comparator does
    not put before it, whichever of the two it is asked about first. *)
Fixpoint inOrder (cmp : Entry.t -> Entry.t -> float) (l : list Entry.t) : bool :=
  match l with
  | a :: ((b :: _) as rest) =>
      (sortCompare cmp a b <=? 0)%float && negb (sortCompare cmp b a <? 0)%float
      && inOrder cmp rest
  | _ => true
  end.

(** The engine leaves an array alone that is in order already.  V8 does:
    it starts by reading the longest run of elements none of which
    compares below its predecessor, and an array that is one such run
    needs no move. *)
Definition keepsOrdered (srt : engine) : Prop :=
  forall cmp l, inOrder cmp l = true -> srt cmp l = l.

(** A stable insertion sort, one engine among others: [x] goes in front of
    the first element it does not compare greater than. *)
Fixpoint insert_sorted (cmp : Entry.t -> Entry.t -> float) (x : Entry.t)
    (l : list Entry.t) : list Entry.t :=
  match l with
  | [] => [x]
  | h :: t => if (sortCompare cmp x h <=? 0)%float then x :: h :: t
              else h :: insert_sorted cmp x t
  end.

Fixpoint insertionSort (cmp : Entry.t -> Entry.t -> float) (l : list Entry.t)
    : list Entry.t :=
  match l with
  | [] => []
  | x :: t => insert_sorted cmp x (insertionSort cmp t)
  end.

(** *** Vocabulary and examples *)

(** The word's centre line, as the code computes it, is above or below
    [box], or the word and [box] have no horizontal intersection. *)
Definition outside (word : OCRWord.t) (box : OCRBBoxOf float) : Prop :=
  (cy word <? y0 box)%float = true \/ (y1 box <? cy word)%float = true \/
  (overlapX1 word box <=? overlapX0 word box)%float = true.

(** The two entries are on one row, and the first starts further left. *)
Definition sameRow (a b : Entry.t) : Prop :=
  (ROW_TOL <? PrimFloat.abs (Entry.y0 a - Entry.y0 b))%float = false.

Definition leftOf (a b : Entry.t) : Prop :=
  (Entry.x0 a <? Entry.x0 b)%float = true.

(** Of two entries of [out] on the same row, the one further left comes
    first. *)
Definition inReadingOrder (out : list Entry.t) : Prop :=
  forall i j a b,
    nth_error out i = Some a -> nth_error out j = Some b ->
    sameRow a b -> leftOf a b -> (i < j)%nat.

Definition wordsActive (s : Overlay) : Prop := selectedIds s ≠ ∅.
Definition rectActive (s : Overlay) : Prop := pendingRect s ≠ None.

Definition Idle (s : Overlay) : Prop :=
  selectedIds s = ∅ /\ dragState s = None /\ pendingRect s = None /\ labelPopup s = None.

(** The word "HELLO" along the top of the page, and the left half of its
    box. *)
Definition hello : OCRWord.t :=
  OCRWord.mk "1-0" (js "HELLO") 90 (mkBBox 0 0 1 0.1)%float.

Definition leftHalf : OCRBBoxOf float := (mkBBox 0 0 0.5 0.1)%float.

Definition unitBox : OCRBBoxOf float := (mkBBox 0 0 1 1)%float.

(** A word between the tops 0.1 and 0.2: the sum 0.1 + 0.2 rounds up, and
    the midpoint the code computes is 0.15000000000000002. *)
Definition mid : OCRWord.t :=
  OCRWord.mk "1-1" (js "MID") 90 (mkBBox 0.1 0.1 0.4 0.2)%float.

(** Three words of a line that rises to the right, as on a skewed scan:
    "C" at x 0.05 and top 0.010, "A" at x 0.10 and top 0.005, "B" at x 0.20
    and top 0. *)
Definition wordC : OCRWord.t :=
  OCRWord.mk "c" (js "C") 90 (mkBBox 0.05 0.010 0.08 0.030)%float.
Definition wordA : OCRWord.t :=
  OCRWord.mk "a" (js "A") 90 (mkBBox 0.10 0.005 0.15 0.025)%float.
Definition wordB : OCRWord.t :=
  OCRWord.mk "b" (js "B") 90 (mkBBox 0.20 0 0.30 0.020)%float.

(** The entry a word of the rising line contributes to a capture of the
    whole page. *)
Definition entryOf (w : OCRWord.t) : Entry.t :=
  Entry.mk (OCRWord.text w) (OCRWord.id w) (y0 (OCRWord.bbox w))
           (x0 (OCRWord.bbox w)).

(** A mouse event [x] pixels right of and [y] pixels below the corner of
    an overlay that is 800 by 1000 pixels and sits at the origin; [bg]
    tells whether the pointer is on the overlay's background rather than
    on a word or field box. *)
Definition pointerAt (x y : float) (bg : bool) : MouseEvent :=
  mkMouse x y false bg (Some (DOMRect.mk 0 0 800 1000)).

(** Page 1 with the word "HELLO" along its top, in field mode and out of
    it. *)
Definition fieldPage : Props := mkProps [hello] 1 field.
Definition viewPage : Props := mkProps [hello] 1 none.

(** The rectangle between (0, 0.5) and (0.5, 0). *)
Definition drawnRect : OCRBBoxOf float := (mkBBox 0 0 0.5 0.5)%float.

(** Press on the background below the word, release over the word's left
    half, then click the word while the label prompt is open: a press and
    a release on the word, which change nothing, and the click. *)
Definition drawThenClick : list event :=
  [ MouseDown (pointerAt 0 500 true);
    MouseUp (pointerAt 400 0 false);
    MouseDown (pointerAt 600 50 false);
    MouseUp (pointerAt 600 50 false);
    WordClick (pointerAt 600 50 false) hello ].

End Double.

(** * Properties *)

(** ** The JavaScript primitives on examples *)

Example round_half_up :
  Math_round (5 # 2) = 3%Z /\ Math_round (-5 # 2) = (-2)%Z /\ Math_round (7 # 3) = 2%Z.
Proof. repeat split. Qed.

Example slice_examples :
  slice (js "HELLO") 1 100 = js "ELLO" /\ slice (js "HELLO") (-3) (-1) = js "LL" /\
  slice (js "HELLO") 3 1 = [].
Proof. repeat split. Qed.

Example trim_example : trim (js "  a b  ") = js "a b".
Proof. reflexivity. Qed.

Example white_space :
  forallb is_white [9; 10; 13; 32; 160; 8200; 8232; 65279]%N = true /\
  existsb is_white [65; 48; 8203; 133]%N = false.
Proof. split; reflexivity. Qed.

Example join_example : join (js " ") [js "Invoice"; js "123"] = js "Invoice 123".
Proof. reflexivity. Qed.

Example division_by_zero :
  js_div 1 0 = PosInf /\ js_div (-1) 0 = NegInf /\ js_div 0 0 = NaN /\
  clamp01 PosInf = Fin 1 /\ clamp01 NegInf = Fin 0 /\ clamp01 NaN = NaN.
Proof. repeat split. Qed.

(** A word that sticks out of the region on both sides keeps its middle
    characters. *)
Example capture_middle :
  captureTextInBox [hello "1-0" 90%Q] (mkBBox (2 # 10) 0 (8 # 10) (1 # 10))%Q
  = mkCapture (js "ELL") ["1-0"%string].
Proof. vm_compute. reflexivity. Qed.

(** The committed word selection of the specification's example. *)
Example commit_invoice_number :
  let ws := [ OCRWord.mk "1" (js "Invoice") 90 (mkBBox (1 # 10) (1 # 10) (3 # 10) (2 # 10));
              OCRWord.mk "2" (js "123") 90 (mkBBox (35 # 100) (1 # 10) (45 # 100) (2 # 10)) ]%Q in
  let f := fst (addField "id" 0 1 (js "Invoice Number") ws initialFieldState) in
  FieldAnnotation.value f = js "Invoice 123" /\
  FieldAnnotation.wordIds f = ["1"; "2"]%string /\
  FieldAnnotation.bbox f = mkBBox (Fin (1 # 10)) (Fin (1 # 10)) (Fin (45 # 100)) (Fin (2 # 10)) /\
  FieldAnnotation.color f = "#6c63ff"%string.
Proof. vm_compute. repeat split. Qed.

(** ** Comparisons on rationals *)

Lemma Qltb_lt (a b : Q) : Qltb a b = true <-> (a < b)%Q.
Proof.
  unfold Qltb. rewrite negb_true_iff, <- not_true_iff_false, Qle_bool_iff.
  split; [apply Qnot_le_lt | apply Qlt_not_le].
Qed.

Lemma Qltb_ge (a b : Q) : Qltb a b = false <-> (b <= a)%Q.
Proof. unfold Qltb. rewrite negb_false_iff. apply Qle_bool_iff. Qed.

Lemma Qgeb_ge (a b : Q) : Qgeb a b = true <-> (b <= a)%Q.
Proof. apply Qle_bool_iff. Qed.

Lemma Qgeb_lt (a b : Q) : Qgeb a b = false <-> (a < b)%Q.
Proof.
  unfold Qgeb. rewrite <- not_true_iff_false, Qle_bool_iff.
  split; [apply Qnot_le_lt | apply Qlt_not_le].
Qed.

Lemma Qle_bool_gt (a b : Q) : Qle_bool a b = false <-> (b < a)%Q.
Proof. apply (Qgeb_lt b a). Qed.

(** ** The sort *)

Section SortFacts.
Context {A : Type} (cmp : A -> A -> Q).

Lemma insert_sorted_In x y l :
  In y (insert_sorted cmp x l) <-> y = x \/ In y l.
Proof.
  induction l as [|h t IH]; simpl.
  - intuition congruence.
  - destruct (Qle_bool (cmp x h) 0); simpl; [intuition congruence|].
    rewrite IH. intuition.
Qed.

Lemma sort_In y l : In y (sort cmp l) <-> In y l.
Proof.
  induction l as [|x t IH]; simpl; [tauto|].
  rewrite insert_sorted_In, IH. intuition.
Qed.

Lemma insert_sorted_length x l :
  length (insert_sorted cmp x l) = S (length l).
Proof.
  induction l as [|h t IH]; simpl; [reflexivity|].
  destruct (Qle_bool (cmp x h) 0); simpl; congruence.
Qed.

Lemma sort_length l : length (sort cmp l) = length l.
Proof.
  induction l as [|x t IH]; simpl; [reflexivity|].
  rewrite insert_sorted_length. congruence.
Qed.

End SortFacts.

(** ** Region text capture *)

Lemma collect_In box words e :
  In e (collect box words) <-> exists w, In w words /\ captureWord box w = Some e.
Proof.
  induction words as [|w ws IH]; simpl.
  - split; [tauto | intros (w & [] & _)].
  - destruct (captureWord box w) as [e'|] eqn:E; simpl; rewrite IH; split.
    + intros [<-|(w' & Hin & Hc)]; eauto.
    + intros (w' & [<-|Hin] & Hc); [left; congruence | eauto].
    + intros (w' & Hin & Hc); eauto.
    + intros (w' & [<-|Hin] & Hc); [congruence | eauto].
Qed.

Lemma collect_app box ws1 ws2 :
  collect box (ws1 ++ ws2) = collect box ws1 ++ collect box ws2.
Proof.
  induction ws1 as [|w ws IH]; simpl; [reflexivity|].
  destruct (captureWord box w); simpl; congruence.
Qed.

Lemma captureWord_id box w e : captureWord box w = Some e -> Entry.id e = OCRWord.id w.
Proof.
  unfold captureWord.
  repeat match goal with |- context [if ?c then _ else _] => destruct c end;
    try discriminate.
  destruct (extracted w box); [discriminate|].
  intros [= <-]. reflexivity.
Qed.

Lemma cy_twice w :
  (cy w * 2 == y0 (OCRWord.bbox w) + y1 (OCRWord.bbox w))%Q.
Proof. unfold cy. field. Qed.

(** Past the overlap guard the word has positive width, so the ratios of
    the partial branch never divide by zero. *)
Lemma overlap_positive_width box w :
  Qgeb (overlapX0 w box) (overlapX1 w box) = false -> (0 < wordW w)%Q.
Proof.
  intros H. apply Qgeb_lt in H. unfold overlapX0, overlapX1, wordW in *.
  pose proof (Q.le_max_l (x0 (OCRWord.bbox w)) (x0 box)).
  pose proof (Q.le_min_l (x1 (OCRWord.bbox w)) (x1 box)).
  lra.
Qed.

(** A word of positive width inside the box is captured whole. *)
Lemma captureWord_inside box w :
  containedIn w box -> (x0 (OCRWord.bbox w) < x1 (OCRWord.bbox w))%Q ->
  OCRWord.text w <> [] ->
  captureWord box w =
    Some (Entry.mk (OCRWord.text w) (OCRWord.id w) (y0 (OCRWord.bbox w))
                   (overlapX0 w box)).
Proof.
  unfold containedIn. intros (Hx0 & _ & Hx1 & Hy0 & Hy & Hy1) Hw Ht.
  unfold captureWord.
  pose proof (cy_twice w) as Hcy.
  assert (E1 : Qltb (cy w) (y0 box) = false).
  { apply Qltb_ge. lra. }
  assert (E2 : Qgtb (cy w) (y1 box) = false).
  { apply Qltb_ge. lra. }
  assert (E3 : Qgeb (overlapX0 w box) (overlapX1 w box) = false).
  { apply Qgeb_lt. unfold overlapX0, overlapX1.
    destruct (Q.max_spec (x0 (OCRWord.bbox w)) (x0 box)) as [[_ ->]|[_ ->]];
    destruct (Q.min_spec (x1 (OCRWord.bbox w)) (x1 box)) as [[_ ->]|[_ ->]]; lra. }
  assert (E4 : fullyInside w box = true).
  { unfold fullyInside. apply andb_true_iff. split.
    - apply Qgeb_ge. exact Hx0.
    - apply Qle_bool_iff. exact Hx1. }
  rewrite E1, E2, E3. simpl.
  unfold extracted. rewrite E4.
  destruct (OCRWord.text w) as [|c t]; [congruence | reflexivity].
Qed.

(** C1. The word "HELLO" with box [0,0,1,0.1] and the region [0,0,0.5,0.1]:
    the word is only partly inside, its start ratio is 0 and its end ratio
    0.5, 0.5 * 5 = 2.5 rounds up to the character index 3, and the capture
    returns the text "HEL" (the slice [0,3)) with the word's id. *)
Theorem C1_hello_left_half (i : string) (c : Q) :
  fullyInside (hello i c) leftHalf = false /\
  (startRatio (hello i c) leftHalf == 0)%Q /\
  (endRatio (hello i c) leftHalf == 1 # 2)%Q /\
  (endRatio (hello i c) leftHalf * 5 == 5 # 2)%Q /\
  startChar (hello i c) leftHalf = 0%Z /\
  endChar (hello i c) leftHalf = 3%Z /\
  slice (js "HELLO") 0 3 = js "HEL" /\
  captureTextInBox [hello i c] leftHalf = mkCapture (js "HEL") [i].
Proof. repeat split; vm_compute; reflexivity. Qed.

(** C2, as the specification states it, fails for a word of zero width: the
    word below has a non-empty text and lies within the box, and the
    capture returns nothing. *)
Lemma C2_zero_width_word_dropped :
  containedIn thinWord unitBox /\ OCRWord.text thinWord <> [] /\
  captureTextInBox [thinWord] unitBox = mkCapture [] [] /\
  ~ In (OCRWord.id thinWord) (cr_wordIds (captureTextInBox [thinWord] unitBox)).
Proof.
  split; [|split; [|split]].
  - unfold containedIn; simpl. repeat split; lra.
  - discriminate.
  - vm_compute. reflexivity.
  - vm_compute. tauto.
Qed.

(** C2, amended. Every word with a non-empty text whose box has positive
    width (x0 < x1) and lies within the capture box (box.x0 <= x0,
    x1 <= box.x1, box.y0 <= y0 <= y1 <= box.y1) is captured with its full
    text, neither sliced nor trimmed, and its id is among the wordIds. *)
Theorem C2_contained_word_kept (words : list OCRWord.t) (box : OCRBBox)
    (w : OCRWord.t) :
  In w words -> OCRWord.text w <> [] -> containedIn w box ->
  (x0 (OCRWord.bbox w) < x1 (OCRWord.bbox w))%Q ->
  (exists e, In e (captured words box) /\
             Entry.text e = OCRWord.text w /\ Entry.id e = OCRWord.id w) /\
  In (OCRWord.id w) (cr_wordIds (captureTextInBox words box)) /\
  In (OCRWord.text w) (List.map Entry.text (captured words box)) /\
  cr_text (captureTextInBox words box) =
    join (js " ") (List.map Entry.text (captured words box)).
Proof.
  intros Hin Ht Hc Hw.
  pose proof (captureWord_inside box w Hc Hw Ht) as Hcap.
  set (e := Entry.mk (OCRWord.text w) (OCRWord.id w) (y0 (OCRWord.bbox w))
                     (overlapX0 w box)) in Hcap.
  assert (He : In e (captured words box)).
  { unfold captured. apply sort_In. apply collect_In. eauto. }
  split; [exists e; auto|].
  split; [|split; [|reflexivity]].
  - simpl. apply (in_map Entry.id) in He. exact He.
  - apply (in_map Entry.text) in He. exact He.
Qed.

Lemma C2_contained_word_kept_witness :
  In "1-0"%string (cr_wordIds (captureTextInBox [hello "1-0" 90%Q] unitBox)).
Proof.
  apply (C2_contained_word_kept [hello "1-0" 90%Q] unitBox (hello "1-0" 90%Q)).
  - left. reflexivity.
  - discriminate.
  - unfold containedIn; simpl. repeat split; lra.
  - simpl. lra.
Defined.

(** ** Field store *)

Lemma getPageFields_storeField f q s :
  getPageFields q (storeField f s) =
    if decide (FieldAnnotation.pageNumber f = q)
    then getPageFields q s ++ [f] else getPageFields q s.
Proof.
  unfold getPageFields, storeField. simpl.
  destruct (decide (FieldAnnotation.pageNumber f = q)) as [<-|Hne].
  - rewrite lookup_insert_eq. reflexivity.
  - rewrite lookup_insert_ne by exact Hne. reflexivity.
Qed.

Lemma colorIndex_perform c s :
  colorIndex (snd (perform c s)) =
    match c with
    | AddField _ _ _ _ _ | AddFieldRect _ _ _ _ _ _ _ => colorIndex s + 1
    | ClearAll => 0
    | _ => colorIndex s
    end.
Proof. destruct c; reflexivity. Qed.

Lemma made_color c s f :
  fst (perform c s) = Some f ->
  FieldAnnotation.color f = colorAt (colorIndex s mod 10).
Proof. destruct c; simpl; intros [= <-]; reflexivity. Qed.

Lemma made_is_add c s :
  isClearAll c = false ->
  fst (perform c s) = None -> colorIndex (snd (perform c s)) = colorIndex s.
Proof. destruct c; simpl; intros; congruence. Qed.

(** Without a reset, the [N]th annotation made from state [s] on has the
    colour at [colorIndex s + N]. *)
Lemma session_colors cs : forall s N f,
  forallb (fun c => negb (isClearAll c)) cs = true ->
  nth_error (fst (session cs s)) N = Some f ->
  FieldAnnotation.color f = colorAt ((colorIndex s + N) mod 10).
Proof.
  induction cs as [|c rest IH]; intros s N f Hno Hn; simpl in *.
  - destruct N; discriminate.
  - apply andb_true_iff in Hno. destruct Hno as [Hc Hrest].
    apply negb_true_iff in Hc.
    pose proof (colorIndex_perform c s) as Hidx.
    pose proof (made_color c s) as Hcol.
    pose proof (made_is_add c s Hc) as Hnone.
    destruct (perform c s) as [made s'] eqn:Ep. simpl in *.
    specialize (IH s'). destruct (session rest s') as [later s''] eqn:Es.
    simpl in *. destruct made as [f0|].
    + destruct N as [|n]; simpl in Hn.
      * injection Hn as <-. rewrite Nat.add_0_r. apply Hcol. reflexivity.
      * rewrite (IH n f Hrest Hn).
        destruct c; try discriminate; simpl in Hidx; rewrite Hidx;
          replace (colorIndex s + 1 + n) with (colorIndex s + S n) by lia;
          reflexivity.
    + rewrite (IH N f Hrest Hn). rewrite Hnone by reflexivity. reflexivity.
Qed.

(** C7, as the specification states it, fails across a reset: [clearAll]
    sets the colour counter back to 0, so the annotation created second in
    the session below (N = 1) gets the colour 0 of the palette, not the
    colour 1. *)
Lemma C7_reset_restarts_palette :
  exists f,
    nth_error (createdIn resetSession) 1 = Some f /\
    FieldAnnotation.color f = colorAt 0 /\
    FieldAnnotation.color f <> colorAt (1 mod 10).
Proof.
  eexists. split; [vm_compute; reflexivity|].
  split; [reflexivity | vm_compute; discriminate].
Qed.

(** C7, amended. For every N >= 0, the Nth FieldAnnotation created since
    the store was last reset (at the start of the session, or by clearAll,
    which puts the store back into its initial state), counting addField
    and addFieldRect calls together and across all pages, is assigned the
    palette colour with index N mod 10; removeField never changes the colour
    counter, so intervening deletions do not cause a colour to be reused out
    of cycle. *)
Theorem C7_palette_cycles (cs : list call) (N : nat) (f : FieldAnnotation.t) :
  forallb (fun c => negb (isClearAll c)) cs = true ->
  nth_error (createdIn cs) N = Some f ->
  FieldAnnotation.color f = colorAt (N mod 10) /\
  length FIELD_COLORS = 10%nat /\
  (forall s, clearAll s = initialFieldState) /\
  (forall i p s, colorIndex (removeField i p s) = colorIndex s).
Proof.
  intros Hno Hn. split; [|repeat split].
  apply (session_colors cs initialFieldState N f Hno Hn).
Qed.

Lemma C7_palette_cycles_witness :
  FieldAnnotation.color
    (fst (addFieldRect "f2" 2000 2 (js "Date") unitBox None None
            (removeField "f1" 1
               (snd (addFieldRect "f1" 1000 1 (js "Total") unitBox None None
                       initialFieldState)))))
  = colorAt (1 mod 10).
Proof.
  apply (C7_palette_cycles
           [ AddFieldRect "f1" 1000 1 (js "Total") unitBox None None;
             RemoveField "f1" 1;
             AddFieldRect "f2" 2000 2 (js "Date") unitBox None None ] 1).
  - reflexivity.
  - reflexivity.
Defined.

Lemma getPageFields_removeField i p q s :
  getPageFields q (removeField i p s) =
    if decide (p = q)
    then List.filter (fun f => negb (String.eqb (FieldAnnotation.id f) i))
                     (getPageFields q s)
    else getPageFields q s.
Proof.
  unfold getPageFields, removeField. simpl.
  destruct (decide (p = q)) as [<-|Hne].
  - rewrite lookup_insert_eq. reflexivity.
  - rewrite lookup_insert_ne by exact Hne. reflexivity.
Qed.

Lemma getPageFields_updateLabel i p l q s :
  getPageFields q (updateLabel i p l s) =
    if decide (p = q)
    then List.map (fun f => if String.eqb (FieldAnnotation.id f) i
                            then FieldAnnotation.with_label f l else f)
                  (getPageFields q s)
    else getPageFields q s.
Proof.
  unfold getPageFields, updateLabel. simpl.
  destruct (decide (p = q)) as [<-|Hne].
  - rewrite lookup_insert_eq. reflexivity.
  - rewrite lookup_insert_ne by exact Hne. reflexivity.
Qed.

Lemma getPageFields_clearPage p q s :
  getPageFields q (clearPage p s) =
    if decide (p = q) then [] else getPageFields q s.
Proof.
  unfold getPageFields, clearPage. simpl.
  destruct (decide (p = q)) as [<-|Hne].
  - rewrite lookup_delete_eq. reflexivity.
  - rewrite lookup_delete_ne by exact Hne. reflexivity.
Qed.

(** Renaming an id that no annotation of the list carries changes
    nothing. *)
Lemma rename_absent i l (fs : list FieldAnnotation.t) :
  (forall f, In f fs -> FieldAnnotation.id f <> i) ->
  List.map (fun f => if String.eqb (FieldAnnotation.id f) i
                     then FieldAnnotation.with_label f l else f) fs = fs.
Proof.
  intros H. induction fs as [|f fs IH]; simpl; [reflexivity|].
  rewrite IH by (intros g Hg; apply H; right; exact Hg).
  destruct (String.eqb (FieldAnnotation.id f) i) eqn:E; [|reflexivity].
  apply String.eqb_eq in E. exfalso. apply (H f); [left; reflexivity | exact E].
Qed.

(** C8, as the specification states it, fails for a page the store has no
    entry for: [updateLabel] sets the page's entry to the mapped list
    whether or not the page had one, so the store gains an entry that
    holds the empty list and is no longer the store it was. *)
Lemma C8_rename_on_unknown_page :
  (forall f, In f (getPageFields 2 oneField) -> FieldAnnotation.id f <> "f9"%string) /\
  fields oneField !! 2%Z = None /\
  fields (updateLabel "f9" 2 (js "Sum") oneField) !! 2%Z = Some [] /\
  updateLabel "f9" 2 (js "Sum") oneField <> oneField.
Proof.
  assert (H0 : fields oneField !! 2%Z = None) by (vm_compute; reflexivity).
  assert (H1 : fields (updateLabel "f9" 2 (js "Sum") oneField) !! 2%Z = Some [])
    by (vm_compute; reflexivity).
  split; [|split; [exact H0 | split; [exact H1|]]].
  - intros f Hin. unfold getPageFields in Hin. rewrite H0 in Hin. destruct Hin.
  - intros Heq. rewrite Heq in H1. congruence.
Qed.

(** C8, amended. After removeField(id, page), getPageFields(page) contains
    no annotation with that id; updateLabel with an id that no annotation
    of the given page carries leaves the colour counter and what
    getPageFields returns for every page unchanged, and leaves the store
    itself unchanged when the page has an entry (for a page without one
    the store gains an entry that holds the empty sequence); getPageFields
    of a page without fields is the empty sequence. *)
Theorem C8_remove_rename_query :
  (forall i p s f,
     In f (getPageFields p (removeField i p s)) -> FieldAnnotation.id f <> i) /\
  (forall i p l s,
     (forall f, In f (getPageFields p s) -> FieldAnnotation.id f <> i) ->
     colorIndex (updateLabel i p l s) = colorIndex s /\
     (forall q, getPageFields q (updateLabel i p l s) = getPageFields q s) /\
     (is_Some (fields s !! p) -> updateLabel i p l s = s) /\
     (fields s !! p = None ->
      fields (updateLabel i p l s) = <[p := []]> (fields s))) /\
  (forall p s, fields s !! p = None -> getPageFields p s = []) /\
  (forall p, getPageFields p initialFieldState = []).
Proof.
  split; [|split; [|split]].
  - intros i p s f Hin. rewrite getPageFields_removeField in Hin.
    destruct (decide (p = p)); [|congruence].
    apply filter_In in Hin. destruct Hin as [_ Hne].
    apply negb_true_iff in Hne. intros Heq. apply String.eqb_neq in Hne. auto.
  - intros i p l s Habs. split; [reflexivity|]. split; [|split].
    + intros q. rewrite getPageFields_updateLabel.
      destruct (decide (p = q)) as [<-|]; [|reflexivity].
      apply rename_absent. exact Habs.
    + intros [fs Hfs]. destruct s as [m ci]. unfold updateLabel. simpl in *.
      f_equal. unfold getPageFields in Habs. simpl in Habs.
      rewrite Hfs in Habs |- *. simpl in *.
      rewrite rename_absent by exact Habs.
      apply insert_id. exact Hfs.
    + intros Hnone. unfold updateLabel. simpl. rewrite Hnone. reflexivity.
  - intros p s H. unfold getPageFields. rewrite H. reflexivity.
  - intros p. reflexivity.
Qed.

Lemma C8_remove_rename_query_witness :
  updateLabel "f9" 1 (js "Sum") oneField = oneField.
Proof.
  assert (Habs : forall f, In f (getPageFields 1 oneField) ->
                           FieldAnnotation.id f <> "f9"%string).
  { intros f Hin. vm_compute in Hin. destruct Hin as [<-|[]]. discriminate. }
  apply (proj1 (proj2 (proj2
           (proj1 (proj2 C8_remove_rename_query) "f9"%string 1%Z (js "Sum") oneField Habs)))).
  eexists. vm_compute. reflexivity.
Defined.

(** C10. Every store operation invoked with a page argument p (addField,
    addFieldRect, removeField, updateLabel, clearPage) leaves
    getPageFields(q) unchanged for every other page q. *)
Theorem C10_other_pages_untouched (c : call) (p q : Z) (s : FieldState) :
  pageOf c = Some p -> q <> p ->
  getPageFields q (snd (perform c s)) = getPageFields q s.
Proof.
  intros Hp Hne. destruct c; simpl in Hp; try discriminate;
    injection Hp as ->; simpl.
  - rewrite getPageFields_storeField. simpl. destruct (decide (p = q)); congruence.
  - rewrite getPageFields_storeField. simpl. destruct (decide (p = q)); congruence.
  - rewrite getPageFields_removeField. destruct (decide (p = q)); congruence.
  - rewrite getPageFields_updateLabel. destruct (decide (p = q)); congruence.
  - rewrite getPageFields_clearPage. destruct (decide (p = q)); congruence.
Qed.

Lemma C10_other_pages_untouched_witness :
  getPageFields 1 (snd (perform (ClearPage 2) oneField)) = getPageFields 1 oneField.
Proof.
  apply (C10_other_pages_untouched (ClearPage 2) 2 1 oneField).
  - reflexivity.
  - discriminate.
Defined.

(** ** Overlay interaction *)

Lemma play_reachable evs : forall a, reachable a -> reachable (play evs a).
Proof.
  induction evs as [|ev rest IH]; intros a Ha; simpl; [exact Ha|].
  apply IH. destruct (enabled ev a) eqn:E; [|exact Ha].
  apply reach_step; assumption.
Qed.

Lemma selected_none (ids : gset string) :
  negb (size ids =? 0)%nat = false -> ids = ∅.
Proof.
  intros H. apply negb_false_iff, Nat.eqb_eq in H.
  apply size_empty_inv in H. apply leibniz_equiv. exact H.
Qed.

(** ** Bounding box normalisation *)

Lemma js_div_nonzero a b : ~ (b == 0)%Q -> js_div a b = Fin (a / b).
Proof.
  intros H. unfold js_div.
  destruct (Qeq_bool b 0) eqn:E; [|reflexivity].
  apply Qeq_bool_iff in E. contradiction.
Qed.

Lemma js_div_zero a b : (b == 0)%Q -> nonFinite (js_div a b).
Proof.
  intros H. unfold js_div. apply Qeq_bool_iff in H. rewrite H.
  destruct (Qeq_bool a 0); [exact I|]. destruct (Qltb 0 a); exact I.
Qed.

Lemma clamp01_nonFinite x : nonFinite x -> clampedNonFinite (clamp01 x).
Proof.
  unfold clampedNonFinite. destruct x; simpl; [tauto| | |]; intros _; auto.
Qed.

Lemma clamp01_one_minus_nonFinite x :
  nonFinite x -> clampedNonFinite (clamp01 (js_one_minus x)).
Proof.
  unfold clampedNonFinite. destruct x; simpl; [tauto| | |]; intros _; auto.
Qed.

(** C9, as the specification states it, fails: no 1 is substituted for a
    degenerate extent. On a canvas of width and height 0 the OCR path
    divides by zero and every coordinate is infinite, where a divisor of 1
    would leave the pixel values. *)
Lemma C9_zero_extent_not_substituted :
  ocrBBox pixelBox 0 0 = mkBBox PosInf PosInf PosInf PosInf /\
  x0 (ocrBBox pixelBox 0 0) <> Fin (x0 pixelBox / substitutedExtent 0) /\
  ocrBBox pixelBox (-2) (-2) = mkBBox (Fin (10 / -2)) (Fin (20 / -2))
                                      (Fin (30 / -2)) (Fin (40 / -2)) /\
  x0 (ocrBBox pixelBox (-2) (-2)) <> Fin (x0 pixelBox / substitutedExtent (-2)).
Proof.
  split; [reflexivity|]. split; [discriminate|]. split; [reflexivity|].
  vm_compute. discriminate.
Qed.

(** C9, amended. The coordinate normalizer never fails on degenerate input,
    and it substitutes nothing: both paths divide by the extent as it is.
    With a non-zero extent, negative or positive, the OCR path gives each
    coordinate divided by the extent, and the embedded-text path the
    flipped and divided coordinate clamped to [0,1]. With a zero extent the
    quotients are not finite (an infinity, or NaN): the OCR path stores
    them as they are and the embedded-text path clamps them to 0 or 1 or
    leaves NaN. *)
Theorem C9_normalizer_divides_by_extent :
  (forall b cw ch, ~ (cw == 0)%Q -> ~ (ch == 0)%Q ->
     ocrBBox b cw ch = mkBBox (Fin (x0 b / cw)) (Fin (y0 b / ch))
                              (Fin (x1 b / cw)) (Fin (y1 b / ch))) /\
  (forall b cw ch, (cw == 0)%Q ->
     nonFinite (x0 (ocrBBox b cw ch)) /\ nonFinite (x1 (ocrBBox b cw ch))) /\
  (forall b cw ch, (ch == 0)%Q ->
     nonFinite (y0 (ocrBBox b cw ch)) /\ nonFinite (y1 (ocrBBox b cw ch))) /\
  (forall hypot view item,
     ~ (pageWidth view == 0)%Q -> ~ (pageHeight view == 0)%Q ->
     let tx := (transform4 item - view0 view)%Q in
     let ty := (transform5 item - view1 view)%Q in
     embeddedBBox hypot view item =
       mkBBox
         (Fin (Qmax 0 (Qmin 1 (tx / pageWidth view))))
         (Fin (Qmax 0 (Qmin 1 (1 - (ty + itemHeight hypot item) / pageHeight view))))
         (Fin (Qmax 0 (Qmin 1 ((tx + Qabs (width item)) / pageWidth view))))
         (Fin (Qmax 0 (Qmin 1 (1 - ty / pageHeight view))))) /\
  (forall hypot view item, (pageWidth view == 0)%Q ->
     clampedNonFinite (x0 (embeddedBBox hypot view item)) /\
     clampedNonFinite (x1 (embeddedBBox hypot view item))) /\
  (forall hypot view item, (pageHeight view == 0)%Q ->
     clampedNonFinite (y0 (embeddedBBox hypot view item)) /\
     clampedNonFinite (y1 (embeddedBBox hypot view item))).
Proof.
  split; [|split; [|split; [|split; [|split]]]].
  - intros b cw ch Hw Hh. unfold ocrBBox.
    rewrite !js_div_nonzero by assumption. reflexivity.
  - intros b cw ch Hw. split; apply js_div_zero; exact Hw.
  - intros b cw ch Hh. split; apply js_div_zero; exact Hh.
  - intros hypot view item Hw Hh tx ty. unfold embeddedBBox.
    rewrite !js_div_nonzero by assumption. reflexivity.
  - intros hypot view item Hw. unfold embeddedBBox. simpl.
    split; apply clamp01_nonFinite, js_div_zero; exact Hw.
  - intros hypot view item Hh. unfold embeddedBBox. simpl.
    split; apply clamp01_one_minus_nonFinite, js_div_zero; exact Hh.
Qed.

Lemma C9_normalizer_divides_by_extent_witness :
  ocrBBox pixelBox (-2) (-4) = mkBBox (Fin (10 / -2)) (Fin (20 / -4))
                                      (Fin (30 / -2)) (Fin (40 / -4)).
Proof.
  apply (proj1 C9_normalizer_divides_by_extent pixelBox (-2)%Q (-4)%Q).
  - vm_compute. discriminate.
  - vm_compute. discriminate.
Defined.

(** ** Region text capture, continued *)

Lemma insert_sorted_perm {A} (cmp : A -> A -> Q) x l :
  Permutation (insert_sorted cmp x l) (x :: l).
Proof.
  induction l as [|h t IH]; simpl; [reflexivity|].
  destruct (Qle_bool (cmp x h) 0); [reflexivity|].
  rewrite IH. apply perm_swap.
Qed.

Lemma sort_perm {A} (cmp : A -> A -> Q) l : Permutation (sort cmp l) l.
Proof.
  induction l as [|x t IH]; simpl; [reflexivity|].
  rewrite insert_sorted_perm, IH. reflexivity.
Qed.

Lemma collect_ids box words :
  List.map Entry.id (collect box words)
  = List.map OCRWord.id (List.filter (capturable box) words).
Proof.
  induction words as [|w ws IH]; simpl; [reflexivity|].
  unfold capturable at 1.
  destruct (captureWord box w) as [e|] eqn:E; simpl; [|exact IH].
  rewrite IH. f_equal. apply (captureWord_id box w e E).
Qed.

(** X2. The wordIds of a capture are, in some order, the ids of exactly
    the words that pass the per-word test, one entry for each such word: no
    id is made up and no word is counted twice. *)
Theorem capture_ids_are_word_ids (words : list OCRWord.t) (box : OCRBBox) :
  Permutation (cr_wordIds (captureTextInBox words box))
              (List.map OCRWord.id (List.filter (capturable box) words)) /\
  length (cr_wordIds (captureTextInBox words box)) <= length words.
Proof.
  assert (Hp : Permutation (cr_wordIds (captureTextInBox words box))
                 (List.map OCRWord.id (List.filter (capturable box) words))).
  { simpl. unfold captured. rewrite <- collect_ids.
    apply Permutation_map. apply sort_perm. }
  split; [exact Hp|].
  rewrite (Permutation_length Hp), length_map. apply List.filter_length_le.
Qed.

(** *** What a captured text is *)

Lemma trimStart_suffix s : exists ws, s = ws ++ trimStart s.
Proof.
  induction s as [|c t [ws IH]]; simpl; [exists []; reflexivity|].
  destruct (is_white c); [|exists []; reflexivity].
  exists (c :: ws). simpl. f_equal. exact IH.
Qed.

Lemma trimStart_head s :
  trimStart s = [] \/ exists c rest, trimStart s = c :: rest /\ is_white c = false.
Proof.
  induction s as [|c t IH]; simpl; [left; reflexivity|].
  destruct (is_white c) eqn:E; [exact IH|]. right. eauto.
Qed.

Lemma trimStart_fixed c rest : is_white c = false -> trimStart (c :: rest) = c :: rest.
Proof. intros H. simpl. rewrite H. reflexivity. Qed.

Lemma pieceOf_trim s : pieceOf (trim s) s.
Proof.
  unfold pieceOf, trim.
  destruct (trimStart_suffix s) as [ws1 H1].
  destruct (trimStart_suffix (rev (trimStart s))) as [ws2 H2].
  exists ws1, (rev ws2).
  rewrite <- rev_app_distr, <- H2, rev_involutive. exact H1.
Qed.

Lemma pieceOf_window (s : jsstring) m n : pieceOf (firstn n (skipn m s)) s.
Proof.
  exists (firstn m s), (skipn n (skipn m s)).
  rewrite !List.firstn_skipn. reflexivity.
Qed.

Lemma pieceOf_slice s a b : pieceOf (slice s a b) s.
Proof. unfold slice. apply pieceOf_window. Qed.

Lemma pieceOf_trans a b c : pieceOf a b -> pieceOf b c -> pieceOf a c.
Proof.
  intros (p1 & q1 & ->) (p2 & q2 & ->).
  exists (p2 ++ p1), (q1 ++ q2). rewrite <- !app_assoc. reflexivity.
Qed.

Lemma pieceOf_refl s : pieceOf s s.
Proof. exists [], []. rewrite app_nil_r. reflexivity. Qed.

(** A trimmed string is empty or has no white space at either end. *)
Lemma trim_trimmed s : trim s = [] \/ trimmed (trim s).
Proof.
  unfold trim.
  destruct (trimStart_suffix (rev (trimStart s))) as [ws Hws].
  destruct (trimStart_head (rev (trimStart s))) as [E|(c & rest & E & Hc)].
  - left. rewrite E. reflexivity.
  - right. rewrite E. simpl. split.
    + (* the first character is the first character of [trimStart s] *)
      assert (Hu : trimStart s = rev rest ++ [c] ++ rev ws).
      { rewrite <- (rev_involutive (trimStart s)), Hws, E.
        rewrite rev_app_distr. simpl. rewrite <- app_assoc. reflexivity. }
      destruct (trimStart_head s) as [E0|(c0 & rest0 & E0 & Hc0)].
      * rewrite E0 in Hu. destruct (rev rest); discriminate.
      * rewrite E0 in Hu. destruct (rev rest) as [|d r] eqn:Er; simpl in *.
        -- exists c, []. split; [reflexivity | exact Hc].
        -- exists d, (r ++ [c]). split; [reflexivity|].
           injection Hu as -> _. exact Hc0.
    + exists (rev rest), c. split; [reflexivity | exact Hc].
Qed.

(** X3. Every entry of a capture comes from a word of the input: it
    carries that word's id, and its text is a non-empty run of consecutive
    characters of the word's text. The capture never invents or reorders
    characters. *)
Theorem captured_text_is_piece (words : list OCRWord.t) (box : OCRBBox)
    (e : Entry.t) :
  In e (captured words box) ->
  exists w, In w words /\ Entry.id e = OCRWord.id w /\
            Entry.text e <> [] /\ pieceOf (Entry.text e) (OCRWord.text w).
Proof.
  intros He. unfold captured in He. apply sort_In, collect_In in He.
  destruct He as (w & Hw & Hc). exists w. split; [exact Hw|].
  split; [apply (captureWord_id box w e Hc)|].
  unfold captureWord in Hc.
  repeat match type of Hc with
         | (if ?c then _ else _) = _ => destruct c; [discriminate|]
         end.
  unfold extracted in Hc.
  destruct (fullyInside w box).
  - destruct (OCRWord.text w) as [|c t] eqn:Et; [discriminate|].
    injection Hc as <-. simpl. split; [discriminate | apply pieceOf_refl].
  - pose proof (pieceOf_trans _ _ _
                  (pieceOf_trim (slice (OCRWord.text w) (startChar w box) (endChar w box)))
                  (pieceOf_slice (OCRWord.text w) (startChar w box) (endChar w box))) as Hp.
    destruct (trim (slice (OCRWord.text w) (startChar w box) (endChar w box)))
      as [|c t] eqn:Et; [discriminate|].
    injection Hc as <-. simpl. split; [discriminate | exact Hp].
Qed.

Lemma captured_text_is_piece_witness :
  exists w, In w [hello "1-0" 90%Q] /\
            Entry.id (Entry.mk (js "HEL") "1-0" 0 0) = OCRWord.id w /\
            Entry.text (Entry.mk (js "HEL") "1-0" 0 0) <> [] /\
            pieceOf (Entry.text (Entry.mk (js "HEL") "1-0" 0 0)) (OCRWord.text w).
Proof.
  apply (captured_text_is_piece [hello "1-0" 90%Q] leftHalf).
  vm_compute. left. reflexivity.
Defined.

(** X4. The text taken from a word that is only partly inside the box is
    trimmed: it neither begins nor ends with white space. *)
Theorem partial_capture_is_trimmed (box : OCRBBox) (w : OCRWord.t) (e : Entry.t) :
  captureWord box w = Some e -> fullyInside w box = false ->
  trimmed (Entry.text e).
Proof.
  intros Hc Hf. unfold captureWord in Hc.
  repeat match type of Hc with
         | (if ?c then _ else _) = _ => destruct c; [discriminate|]
         end.
  unfold extracted in Hc. rewrite Hf in Hc.
  destruct (trim_trimmed (slice (OCRWord.text w) (startChar w box) (endChar w box)))
    as [E|Ht].
  - rewrite E in Hc. discriminate.
  - destruct (trim (slice (OCRWord.text w) (startChar w box) (endChar w box)))
      as [|c t]; [discriminate|].
    injection Hc as <-. exact Ht.
Qed.

Lemma partial_capture_is_trimmed_witness :
  trimmed (Entry.text (Entry.mk (js "HEL") "1-0" 0 0)).
Proof.
  apply (partial_capture_is_trimmed leftHalf (hello "1-0" 90%Q)).
  - vm_compute. reflexivity.
  - vm_compute. reflexivity.
Defined.

(** *** Character indices of a partly covered word *)

Lemma Math_round_nonneg x : (0 <= x)%Q -> (0 <= Math_round x)%Z.
Proof.
  intros H. unfold Math_round.
  change 0%Z with (Qfloor 0). apply Qfloor_resp_le. lra.
Qed.

Lemma Math_round_mono x y : (x <= y)%Q -> (Math_round x <= Math_round y)%Z.
Proof. intros H. unfold Math_round. apply Qfloor_resp_le. lra. Qed.

Lemma Math_round_le_int x (n : Z) : (x <= inject_Z n)%Q -> (Math_round x <= n)%Z.
Proof.
  intros H. unfold Math_round.
  pose proof (Qfloor_le (x + (1 # 2))) as Hf.
  assert (Hlt : (inject_Z (Qfloor (x + (1 # 2))) < inject_Z (n + 1))%Q).
  { rewrite inject_Z_plus. change (inject_Z 1) with 1%Q. lra. }
  rewrite <- Zlt_Qlt in Hlt. lia.
Qed.

(** Past the overlap guard the two ratios are ordered and lie in [0,1]. *)
Lemma ratios_ordered box w :
  (overlapX0 w box < overlapX1 w box)%Q ->
  (0 <= startRatio w box /\ startRatio w box <= endRatio w box /\
   endRatio w box <= 1)%Q.
Proof.
  intros Hov.
  assert (HW : (0 < wordW w)%Q).
  { apply (overlap_positive_width box). apply Qgeb_lt. exact Hov. }
  unfold overlapX0, overlapX1 in Hov. unfold startRatio, endRatio.
  pose proof (Q.le_max_l (x0 (OCRWord.bbox w)) (x0 box)).
  pose proof (Q.le_max_r (x0 (OCRWord.bbox w)) (x0 box)).
  pose proof (Q.le_min_l (x1 (OCRWord.bbox w)) (x1 box)).
  pose proof (Q.le_min_r (x1 (OCRWord.bbox w)) (x1 box)).
  set (a := ((x0 box - x0 (OCRWord.bbox w)) / wordW w)%Q).
  set (b := ((x1 box - x0 (OCRWord.bbox w)) / wordW w)%Q).
  assert (Hab : (a <= b)%Q).
  { unfold a, b. apply Qle_shift_div_l; [exact HW|].
    unfold Qdiv. rewrite <- Qmult_assoc, (Qmult_comm (/ wordW w)), Qmult_inv_r by lra.
    lra. }
  assert (Ha : (a <= 1)%Q).
  { unfold a. apply Qle_shift_div_r; [exact HW|]. unfold wordW in *. lra. }
  assert (Hb : (0 <= b)%Q).
  { unfold b. apply Qle_shift_div_l; [exact HW|]. lra. }
  destruct (Q.max_spec 0 a) as [[Hm Em]|[Hm Em]];
  destruct (Q.min_spec 1 b) as [[Hn En]|[Hn En]];
  rewrite Em, En; repeat split; lra.
Qed.

(** X5. For a word that passes the overlap guard, the two character
    indices of the proportional slice are ordered and within the word,
    0 <= startChar <= endChar <= length, so the slice is exactly the
    characters from startChar up to endChar: no index is negative or beyond
    the end, and the division is by a positive width. *)
Theorem slice_indices_in_range (box : OCRBBox) (w : OCRWord.t) :
  (overlapX0 w box < overlapX1 w box)%Q ->
  (0 < wordW w)%Q /\
  (0 <= startChar w box <= endChar w box)%Z /\
  (endChar w box <= Z.of_nat (length (OCRWord.text w)))%Z /\
  slice (OCRWord.text w) (startChar w box) (endChar w box)
  = firstn (Z.to_nat (endChar w box) - Z.to_nat (startChar w box))
           (skipn (Z.to_nat (startChar w box)) (OCRWord.text w)).
Proof.
  intros Hov.
  destruct (ratios_ordered box w Hov) as (H0 & Hse & H1).
  assert (HW : (0 < wordW w)%Q).
  { apply (overlap_positive_width box). apply Qgeb_lt. exact Hov. }
  set (n := Z.of_nat (length (OCRWord.text w))).
  assert (Hn : (0 <= inject_Z n)%Q).
  { change 0%Q with (inject_Z 0). rewrite <- Zle_Qle. unfold n. lia. }
  assert (Hs0 : (0 <= startChar w box)%Z).
  { apply Math_round_nonneg. fold n. apply Qmult_le_0_compat; assumption. }
  assert (Hse' : (startChar w box <= endChar w box)%Z).
  { apply Math_round_mono. fold n. apply Qmult_le_compat_r; assumption. }
  assert (Hen : (endChar w box <= n)%Z).
  { apply Math_round_le_int. fold n.
    apply Qle_trans with (1 * inject_Z n)%Q; [|lra].
    apply Qmult_le_compat_r; assumption. }
  split; [exact HW|]. split; [lia|]. split; [exact Hen|].
  unfold slice, rel_index. fold n.
  destruct (startChar w box <? 0)%Z eqn:E1; [apply Z.ltb_lt in E1; lia|].
  destruct (endChar w box <? 0)%Z eqn:E2; [apply Z.ltb_lt in E2; lia|].
  rewrite !Z.min_l by lia. f_equal. lia.
Qed.

Lemma slice_indices_in_range_witness :
  (0 <= startChar (hello "1-0" 90%Q) leftHalf <= endChar (hello "1-0" 90%Q) leftHalf)%Z.
Proof.
  apply (slice_indices_in_range leftHalf (hello "1-0" 90%Q)).
  vm_compute. reflexivity.
Defined.

(** ** Field store, continued *)

(** X8. A created annotation is filed last on its page: after addField or
    addFieldRect, getPageFields of the page is the former list followed by
    the returned annotation, which carries the given id, page and label;
    addField joins the words' texts with single spaces and lists their ids,
    and addFieldRect without value and wordIds stores the empty text and no
    ids. *)
Theorem add_then_get (uuid : string) (now p : Z) (label : jsstring) (s : FieldState) :
  (forall ws,
     let r := addField uuid now p label ws s in
     getPageFields p (snd r) = getPageFields p s ++ [fst r] /\
     FieldAnnotation.id (fst r) = uuid /\
     FieldAnnotation.pageNumber (fst r) = p /\
     FieldAnnotation.label (fst r) = label /\
     FieldAnnotation.value (fst r) = join (js " ") (List.map OCRWord.text ws) /\
     FieldAnnotation.wordIds (fst r) = List.map OCRWord.id ws) /\
  (forall bbox value ids,
     let r := addFieldRect uuid now p label bbox value ids s in
     getPageFields p (snd r) = getPageFields p s ++ [fst r] /\
     FieldAnnotation.id (fst r) = uuid /\
     FieldAnnotation.pageNumber (fst r) = p /\
     FieldAnnotation.label (fst r) = label /\
     FieldAnnotation.bbox (fst r) = finiteBBox bbox /\
     (value = None -> FieldAnnotation.value (fst r) = []) /\
     (ids = None -> FieldAnnotation.wordIds (fst r) = [])) .
Proof.
  split.
  - intros ws r. unfold r, addField. simpl.
    rewrite getPageFields_storeField. simpl.
    destruct (decide (p = p)); [|congruence]. repeat split.
  - intros bbox value ids r. unfold r, addFieldRect. simpl.
    rewrite getPageFields_storeField. simpl.
    destruct (decide (p = p)); [|congruence].
    repeat split; intros ->; reflexivity.
Qed.

Lemma fold_Qmin_le (t : list Q) : forall h,
  (fold_left Qmin t h <= h)%Q /\
  (forall q, In q t -> fold_left Qmin t h <= q)%Q /\
  (exists q, In q (h :: t) /\ fold_left Qmin t h == q)%Q.
Proof.
  induction t as [|a t IH]; intros h; simpl.
  - split; [lra|]. split; [tauto|]. exists h. split; [auto | reflexivity].
  - destruct (IH (Qmin h a)) as (H1 & H2 & (q & Hq & Eq)).
    pose proof (Q.le_min_l h a). pose proof (Q.le_min_r h a).
    split; [lra|]. split.
    + intros q' [<-|Hin]; [lra | auto].
    + destruct Hq as [<-|Hq].
      * destruct (Q.min_spec h a) as [[_ E]|[_ E]].
        -- exists h. split; [auto|]. rewrite Eq. exact E.
        -- exists a. split; [auto|]. rewrite Eq. exact E.
      * exists q. split; [auto | exact Eq].
Qed.

Lemma fold_Qmax_ge (t : list Q) : forall h,
  (h <= fold_left Qmax t h)%Q /\
  (forall q, In q t -> q <= fold_left Qmax t h)%Q /\
  (exists q, In q (h :: t) /\ fold_left Qmax t h == q)%Q.
Proof.
  induction t as [|a t IH]; intros h; simpl.
  - split; [lra|]. split; [tauto|]. exists h. split; [auto | reflexivity].
  - destruct (IH (Qmax h a)) as (H1 & H2 & (q & Hq & Eq)).
    pose proof (Q.le_max_l h a). pose proof (Q.le_max_r h a).
    split; [lra|]. split.
    + intros q' [<-|Hin]; [lra | auto].
    + destruct Hq as [<-|Hq].
      * destruct (Q.max_spec h a) as [[_ E]|[_ E]].
        -- exists a. split; [auto|]. rewrite Eq. exact E.
        -- exists h. split; [auto|]. rewrite Eq. exact E.
      * exists q. split; [auto | exact Eq].
Qed.

Lemma Math_min_of_spec (f : OCRBBox -> Q) (bs : list OCRBBox) :
  bs <> [] ->
  exists m, Math_min_of (List.map f bs) = Fin m /\
            (forall b, In b bs -> m <= f b)%Q /\
            (exists b, In b bs /\ m == f b)%Q.
Proof.
  destruct bs as [|b0 bs]; [congruence|]. intros _. simpl.
  destruct (fold_Qmin_le (List.map f bs) (f b0)) as (H1 & H2 & (q & Hq & Eq)).
  eexists. split; [reflexivity|]. split.
  - intros b [<-|Hb]; [exact H1|]. apply H2. apply in_map. exact Hb.
  - change (f b0 :: List.map f bs) with (List.map f (b0 :: bs)) in Hq.
    apply in_map_iff in Hq. destruct Hq as (b & <- & Hb). eauto.
Qed.

Lemma Math_max_of_spec (f : OCRBBox -> Q) (bs : list OCRBBox) :
  bs <> [] ->
  exists m, Math_max_of (List.map f bs) = Fin m /\
            (forall b, In b bs -> f b <= m)%Q /\
            (exists b, In b bs /\ m == f b)%Q.
Proof.
  destruct bs as [|b0 bs]; [congruence|]. intros _. simpl.
  destruct (fold_Qmax_ge (List.map f bs) (f b0)) as (H1 & H2 & (q & Hq & Eq)).
  eexists. split; [reflexivity|]. split.
  - intros b [<-|Hb]; [exact H1|]. apply H2. apply in_map. exact Hb.
  - change (f b0 :: List.map f bs) with (List.map f (b0 :: bs)) in Hq.
    apply in_map_iff in Hq. destruct Hq as (b & <- & Hb). eauto.
Qed.

(** X9. mergeBBoxes of a non-empty list is the smallest box around the
    given boxes: it contains every one of them, and each of its four sides
    is a side of one of them. Of the empty list it is the box with the
    infinite corners (Infinity, Infinity, -Infinity, -Infinity). *)
Theorem mergeBBoxes_smallest_enclosing :
  (forall bs, bs <> [] ->
     (forall b, In b bs -> encloses (mergeBBoxes bs) b) /\
     touches (mergeBBoxes bs) bs) /\
  mergeBBoxes [] = mkBBox PosInf PosInf NegInf NegInf.
Proof.
  split; [|reflexivity].
  intros bs Hne. unfold mergeBBoxes.
  destruct (Math_min_of_spec x0 bs Hne) as (mx0 & E1 & L1 & (b1 & I1 & T1)).
  destruct (Math_min_of_spec y0 bs Hne) as (my0 & E2 & L2 & (b2 & I2 & T2)).
  destruct (Math_max_of_spec x1 bs Hne) as (mx1 & E3 & L3 & (b3 & I3 & T3)).
  destruct (Math_max_of_spec y1 bs Hne) as (my1 & E4 & L4 & (b4 & I4 & T4)).
  rewrite E1, E2, E3, E4. split.
  - intros b Hb. exists mx0, my0, mx1, my1. split; [reflexivity|].
    repeat split; auto.
  - unfold touches. simpl. repeat split; eauto.
Qed.

Lemma mergeBBoxes_smallest_enclosing_witness :
  encloses (mergeBBoxes [OCRWord.bbox wordA; OCRWord.bbox wordB]) (OCRWord.bbox wordB).
Proof.
  apply (proj1 mergeBBoxes_smallest_enclosing
           [OCRWord.bbox wordA; OCRWord.bbox wordB]).
  - discriminate.
  - right. left. reflexivity.
Defined.

Lemma filter_keeps_others i (fs : list FieldAnnotation.t) :
  (forall f, In f fs -> FieldAnnotation.id f <> i) ->
  List.filter (fun f => negb (String.eqb (FieldAnnotation.id f) i)) fs = fs.
Proof.
  intros H. induction fs as [|f fs IH]; simpl; [reflexivity|].
  destruct (String.eqb (FieldAnnotation.id f) i) eqn:E; simpl.
  - apply String.eqb_eq in E. exfalso. apply (H f); [left; reflexivity | exact E].
  - f_equal. apply IH. intros g Hg. apply H. right. exact Hg.
Qed.

(** X10. Removing an annotation right after creating it restores every
    page, provided its id was not already on the page; the colour counter
    stays advanced, so the colour is not handed out again. Removing an id
    that is not on the page changes no page. *)
Theorem remove_undoes_add (uuid : string) (now p : Z) (label : jsstring)
    (ws : list OCRWord.t) (s : FieldState) :
  (forall f, In f (getPageFields p s) -> FieldAnnotation.id f <> uuid) ->
  let s' := removeField uuid p (snd (addField uuid now p label ws s)) in
  (forall q, getPageFields q s' = getPageFields q s) /\
  colorIndex s' = colorIndex s + 1 /\
  (forall q, getPageFields q (removeField uuid p s) = getPageFields q s).
Proof.
  intros Hfresh s'. split; [|split; [reflexivity|]].
  - intros q. unfold s'. rewrite getPageFields_removeField.
    destruct (decide (p = q)) as [<-|Hne].
    + unfold addField. simpl. rewrite getPageFields_storeField. simpl.
      destruct (decide (p = p)); [|congruence].
      rewrite List.filter_app, filter_keeps_others by exact Hfresh.
      simpl. rewrite String.eqb_refl. simpl. apply app_nil_r.
    + unfold addField. simpl. rewrite getPageFields_storeField. simpl.
      destruct (decide (p = q)); [congruence | reflexivity].
  - intros q. rewrite getPageFields_removeField.
    destruct (decide (p = q)) as [<-|]; [|reflexivity].
    apply filter_keeps_others. exact Hfresh.
Qed.

Lemma remove_undoes_add_witness :
  getPageFields 1 (removeField "f2" 1
                     (snd (addField "f2" 2000 1 (js "Date") [wordA] oneField)))
  = getPageFields 1 oneField.
Proof.
  apply (remove_undoes_add "f2" 2000 1 (js "Date") [wordA] oneField).
  intros f Hin. vm_compute in Hin. destruct Hin as [<-|[]]. discriminate.
Defined.

(** X11. updateLabel renames and does nothing else: the page keeps as many
    annotations in the same order, each differs from the former one at most
    in its label, every annotation with the given id now carries the new
    label, and every other annotation is the same as before. *)
Theorem updateLabel_only_renames (i : string) (p : Z) (l : jsstring) (s : FieldState) :
  Forall2 (fun f f' =>
             sameButLabel f f' /\
             (FieldAnnotation.id f = i -> FieldAnnotation.label f' = l) /\
             (FieldAnnotation.id f <> i -> f' = f))
          (getPageFields p s) (getPageFields p (updateLabel i p l s)) /\
  length (getPageFields p (updateLabel i p l s)) = length (getPageFields p s) /\
  pageIds p (updateLabel i p l s) = pageIds p s.
Proof.
  unfold pageIds. rewrite getPageFields_updateLabel.
  destruct (decide (p = p)); [|congruence].
  induction (getPageFields p s) as [|f fs (IH1 & IH2 & IH3)]; simpl.
  - repeat split. constructor.
  - split; [|split].
    + constructor; [|exact IH1].
      destruct (String.eqb (FieldAnnotation.id f) i) eqn:E.
      * apply String.eqb_eq in E. split; [|split].
        -- unfold sameButLabel. destruct f; reflexivity.
        -- intros _. reflexivity.
        -- intros Hne. contradiction.
      * apply String.eqb_neq in E. split; [|split].
        -- unfold sameButLabel. destruct f; reflexivity.
        -- intros He. contradiction.
        -- intros _. reflexivity.
    + f_equal. exact IH2.
    + f_equal; [|exact IH3].
      destruct (String.eqb (FieldAnnotation.id f) i); reflexivity.
Qed.

(** The palette holds ten different colours. *)
Lemma FIELD_COLORS_distinct : List.NoDup FIELD_COLORS.
Proof.
  unfold FIELD_COLORS.
  repeat (constructor; [simpl; intuition discriminate|]). constructor.
Qed.

(** X12. Between two resets, two different annotations created fewer than
    ten creations apart get different colours. *)
Theorem nearby_fields_differ_in_colour (cs : list call) (M N : nat)
    (f g : FieldAnnotation.t) :
  forallb (fun c => negb (isClearAll c)) cs = true ->
  nth_error (createdIn cs) M = Some f ->
  nth_error (createdIn cs) N = Some g ->
  M < N -> N - M < 10 ->
  FieldAnnotation.color f <> FieldAnnotation.color g.
Proof.
  intros Hno Hf Hg Hlt Hnear Heq.
  rewrite (session_colors cs initialFieldState M f Hno Hf) in Heq.
  rewrite (session_colors cs initialFieldState N g Hno Hg) in Heq.
  simpl colorIndex in Heq. rewrite !Nat.add_0_l in Heq.
  unfold colorAt in Heq.
  assert (HM : M mod 10 < 10) by (apply Nat.mod_upper_bound; lia).
  assert (HN : N mod 10 < 10) by (apply Nat.mod_upper_bound; lia).
  apply (proj1 (List.NoDup_nth FIELD_COLORS ""%string)) in Heq;
    [| exact FIELD_COLORS_distinct | exact HM | exact HN ].
  pose proof (Nat.div_mod_eq M 10). pose proof (Nat.div_mod_eq N 10).
  assert (M / 10 <= N / 10) by (apply Nat.Div0.div_le_mono; lia).
  nia.
Qed.

Lemma nearby_fields_differ_in_colour_witness :
  FieldAnnotation.color
    (fst (addFieldRect "f1" 1000 1 (js "Total") unitBox None None initialFieldState))
  <> FieldAnnotation.color
       (fst (addFieldRect "f2" 2000 2 (js "Date") unitBox None None
               (removeField "f1" 1 oneField))).
Proof.
  apply (nearby_fields_differ_in_colour
           [ AddFieldRect "f1" 1000 1 (js "Total") unitBox None None;
             RemoveField "f1" 1;
             AddFieldRect "f2" 2000 2 (js "Date") unitBox None None ] 0 1).
  - reflexivity.
  - reflexivity.
  - reflexivity.
  - lia.
  - simpl. lia.
Defined.

(** *** Invariants of a session *)

Lemma pageIds_storeField f q s :
  pageIds q (storeField f s) =
    if decide (FieldAnnotation.pageNumber f = q)
    then pageIds q s ++ [FieldAnnotation.id f] else pageIds q s.
Proof.
  unfold pageIds. rewrite getPageFields_storeField.
  destruct (decide (FieldAnnotation.pageNumber f = q)); [|reflexivity].
  rewrite List.map_app. reflexivity.
Qed.

Lemma NoDup_map_filter {A B} (f : A -> B) (g : A -> bool) (l : list A) :
  List.NoDup (List.map f l) -> List.NoDup (List.map f (List.filter g l)).
Proof.
  induction l as [|a l IH]; simpl; [auto|].
  intros Hnd. inversion Hnd as [|? ? Hnotin Hrest]; subst.
  destruct (g a); simpl; [|auto].
  constructor; [|auto].
  intros Hin. apply Hnotin. apply in_map_iff in Hin.
  destruct Hin as (x & Hx & Hxin). apply filter_In in Hxin.
  apply in_map_iff. exists x. tauto.
Qed.

Lemma In_map_filter {A B} (f : A -> B) (g : A -> bool) (l : list A) y :
  In y (List.map f (List.filter g l)) -> In y (List.map f l).
Proof.
  intros Hin. apply in_map_iff in Hin. destruct Hin as (x & Hx & Hxin).
  apply filter_In in Hxin. apply in_map_iff. exists x. tauto.
Qed.

Lemma pageIds_rename i l (fs : list FieldAnnotation.t) :
  List.map FieldAnnotation.id
    (List.map (fun f => if String.eqb (FieldAnnotation.id f) i
                        then FieldAnnotation.with_label f l else f) fs)
  = List.map FieldAnnotation.id fs.
Proof.
  induction fs as [|f fs IH]; simpl; [reflexivity|]. f_equal; [|exact IH].
  destruct (String.eqb (FieldAnnotation.id f) i); reflexivity.
Qed.

(** What a call does to the ids of a page: it appends the id it creates,
    or it leaves a selection of the ids there were. *)
Lemma pageIds_perform c s q :
  (exists u, uuidOf c = Some u /\ pageIds q (snd (perform c s)) = pageIds q s ++ [u]) \/
  (List.NoDup (pageIds q s) -> List.NoDup (pageIds q (snd (perform c s)))) /\
  (forall i, In i (pageIds q (snd (perform c s))) -> In i (pageIds q s)).
Proof.
  destruct c as [u n p l ws|u n p l b v ids|i p|i p l|p|]; simpl.
  - unfold addField. simpl. rewrite pageIds_storeField. simpl.
    destruct (decide (p = q)); [left; eauto | right; auto].
  - unfold addFieldRect. simpl. rewrite pageIds_storeField. simpl.
    destruct (decide (p = q)); [left; eauto | right; auto].
  - right. unfold pageIds. rewrite getPageFields_removeField.
    destruct (decide (p = q)); [|auto].
    split; [apply NoDup_map_filter | intros j; apply In_map_filter].
  - right. unfold pageIds. rewrite getPageFields_updateLabel.
    destruct (decide (p = q)); [|auto]. rewrite pageIds_rename. auto.
  - right. unfold pageIds. rewrite getPageFields_clearPage.
    destruct (decide (p = q)); simpl; [|auto].
    split; [intros _; constructor | tauto].
  - right. unfold pageIds, getPageFields. simpl. rewrite lookup_empty. simpl.
    split; [intros _; constructor | tauto].
Qed.

Lemma session_ids cs : forall s,
  List.NoDup (uuidsOf cs) ->
  (forall q, List.NoDup (pageIds q s)) ->
  (forall q i, In i (pageIds q s) -> ~ In i (uuidsOf cs)) ->
  forall q, List.NoDup (pageIds q (snd (session cs s))).
Proof.
  induction cs as [|c rest IH]; intros s Hu Hnd Hfresh q; simpl; [apply Hnd|].
  destruct (perform c s) as [made s'] eqn:Ep.
  assert (Es : s' = snd (perform c s)) by (rewrite Ep; reflexivity).
  specialize (IH s'). destruct (session rest s') as [later s''] eqn:E'.
  simpl in *. apply IH; clear IH.
  - unfold uuidsOf in *. simpl in Hu. destruct (uuidOf c); [|exact Hu].
    inversion Hu. assumption.
  - intros p. subst s'.
    destruct (pageIds_perform c s p) as [(u & Hc & ->)|[Hk _]]; [|auto].
    apply List.NoDup_app.
    + apply Hnd.
    + constructor; [simpl; tauto | constructor].
    + intros i Hi [Heq|[]]. subst i. apply (Hfresh p u Hi).
      unfold uuidsOf. simpl. rewrite Hc. left. reflexivity.
  - intros p i Hi Hin. subst s'.
    assert (Hsub : forall j, In j (uuidsOf rest) -> In j (uuidsOf (c :: rest))).
    { intros j Hj. unfold uuidsOf in *. simpl. destruct (uuidOf c); [right|]; exact Hj. }
    destruct (pageIds_perform c s p) as [(u & Hc & E)|[_ Hk]].
    + rewrite E in Hi. apply in_app_iff in Hi. destruct Hi as [Hi|[<-|[]]].
      * apply (Hfresh p i Hi). apply Hsub. exact Hin.
      * unfold uuidsOf in Hu. simpl in Hu. rewrite Hc in Hu.
        inversion Hu. contradiction.
    + apply (Hfresh p i (Hk i Hi)). apply Hsub. exact Hin.
Qed.

(** X13. As long as the ids given to new annotations are all different,
    no page ever holds two annotations with the same id, whatever calls are
    made in between. *)
Theorem ids_stay_unique (cs : list call) (q : Z) :
  List.NoDup (uuidsOf cs) ->
  List.NoDup (pageIds q (snd (session cs initialFieldState))).
Proof.
  intros Hu. apply session_ids; [exact Hu | |].
  - intros p. constructor.
  - intros p i Hi. unfold pageIds, getPageFields in Hi. simpl in Hi.
    rewrite lookup_empty in Hi. destruct Hi.
Qed.

Lemma ids_stay_unique_witness :
  List.NoDup (pageIds 1 (snd (session resetSession initialFieldState))).
Proof.
  apply (ids_stay_unique resetSession 1).
  unfold uuidsOf, resetSession. simpl.
  constructor; [simpl; intuition discriminate|].
  constructor; [simpl; tauto | constructor].
Defined.

Lemma session_pages cs : forall s,
  (forall q f, In f (getPageFields q s) -> FieldAnnotation.pageNumber f = q) ->
  forall q f, In f (getPageFields q (snd (session cs s))) ->
              FieldAnnotation.pageNumber f = q.
Proof.
  induction cs as [|c rest IH]; intros s Hs q f; simpl; [apply Hs|].
  destruct (perform c s) as [made s'] eqn:Ep.
  assert (Es : s' = snd (perform c s)) by (rewrite Ep; reflexivity).
  specialize (IH s'). destruct (session rest s') as [later s''] eqn:E'.
  simpl in *. apply IH; clear IH. subst s'. clear Ep E'.
  intros p g Hg.
  destruct c as [u n p0 l ws|u n p0 l b v ids|i p0|i p0 l|p0|]; simpl in Hg.
  - unfold addField in Hg. simpl in Hg. rewrite getPageFields_storeField in Hg.
    simpl in Hg. destruct (decide (p0 = p)) as [<-|]; [|eauto].
    apply in_app_iff in Hg. destruct Hg as [Hg|[<-|[]]]; [eauto | reflexivity].
  - unfold addFieldRect in Hg. simpl in Hg. rewrite getPageFields_storeField in Hg.
    simpl in Hg. destruct (decide (p0 = p)) as [<-|]; [|eauto].
    apply in_app_iff in Hg. destruct Hg as [Hg|[<-|[]]]; [eauto | reflexivity].
  - rewrite getPageFields_removeField in Hg.
    destruct (decide (p0 = p)); [|eauto]. apply filter_In in Hg. apply Hs. tauto.
  - rewrite getPageFields_updateLabel in Hg.
    destruct (decide (p0 = p)); [|eauto]. apply in_map_iff in Hg.
    destruct Hg as (g0 & <- & Hg0).
    destruct (String.eqb (FieldAnnotation.id g0) i); simpl; apply Hs; exact Hg0.
  - rewrite getPageFields_clearPage in Hg.
    destruct (decide (p0 = p)); [destruct Hg | eauto].
  - unfold getPageFields in Hg. simpl in Hg. rewrite lookup_empty in Hg. destruct Hg.
Qed.

(** X14. Every annotation is filed under its own page: whatever calls a
    session makes, an annotation that getPageFields(q) returns has
    pageNumber q. *)
Theorem fields_filed_under_own_page (cs : list call) (q : Z) (f : FieldAnnotation.t) :
  In f (getPageFields q (snd (session cs initialFieldState))) ->
  FieldAnnotation.pageNumber f = q.
Proof.
  apply session_pages. intros p g Hg.
  unfold getPageFields in Hg. simpl in Hg. rewrite lookup_empty in Hg. destruct Hg.
Qed.

Lemma fields_filed_under_own_page_witness :
  FieldAnnotation.pageNumber
    (fst (addFieldRect "f2" 2000 1 (js "Date") unitBox None None initialFieldState)) = 1%Z.
Proof.
  apply (fields_filed_under_own_page resetSession 1).
  vm_compute. left. reflexivity.
Defined.

(** ** Overlay interaction, continued *)

Lemma sole_selected (ids : gset string) (i : string) :
  has ids i && (size ids =? 1)%nat = true <-> ids = {[ i ]}.
Proof.
  unfold has. rewrite andb_true_iff, bool_decide_eq_true, Nat.eqb_eq. split.
  - intros [Hin Hsz]. apply size_1_elem_of in Hsz. destruct Hsz as [x Hx].
    apply leibniz_equiv in Hx. subst ids.
    apply elem_of_singleton in Hin. subst x. reflexivity.
  - intros ->. split; [apply elem_of_singleton; reflexivity | apply size_singleton].
Qed.

Ltac sets :=
  repeat (rewrite ?elem_of_difference, ?elem_of_union, ?elem_of_singleton in *);
  intuition congruence.

(** X15. Clicking a word in field mode: a plain click selects just that
    word, except that a plain click on the only selected word clears the
    selection; a shift-click adds the word to the selection or takes it
    out, so two shift-clicks on the same word restore the selection. Every
    click closes the label prompt and leaves drag, pending rectangle, refs
    and label input alone; outside field mode a click changes nothing. *)
Theorem word_click_selection (p : Props) (e : MouseEvent) (w : OCRWord.t) (s : Overlay) :
  let s' := handleWordClick p e w s in
  let i := OCRWord.id w in
  (isField (mode p) = false -> s' = s) /\
  (isField (mode p) = true ->
     (shiftKey e = false ->
        selectedIds s' = if decide (selectedIds s = {[ i ]}) then ∅ else {[ i ]}) /\
     (shiftKey e = true ->
        (i ∈ selectedIds s' <-> i ∉ selectedIds s) /\
        (forall j, j <> i -> (j ∈ selectedIds s' <-> j ∈ selectedIds s)) /\
        selectedIds (handleWordClick p e w s') = selectedIds s) /\
     labelPopup s' = None /\
     dragState s' = dragState s /\ pendingRect s' = pendingRect s /\
     pendingWordsRef s' = pendingWordsRef s /\
     capturedTextRef s' = capturedTextRef s /\ labelInput s' = labelInput s).
Proof.
  intros s' i. unfold s', handleWordClick. fold i. split.
  - intros ->. reflexivity.
  - intros ->. simpl. split; [|split; [|repeat split]].
    + intros ->.
      destruct (has (selectedIds s) i && (size (selectedIds s) =? 1)%nat) eqn:E.
      * apply sole_selected in E. rewrite E.
        destruct (decide ({[i]} = ({[i]} : gset string))); [|congruence].
        apply difference_diag_L.
      * destruct (decide (selectedIds s = {[i]})) as [Hs|]; [|reflexivity].
        apply sole_selected in Hs. congruence.
    + intros ->. unfold has.
      destruct (bool_decide (i ∈ selectedIds s)) eqn:E.
      * apply bool_decide_eq_true in E. split; [sets|]. split; [intros j Hj; sets|].
        destruct (bool_decide (i ∈ selectedIds s ∖ {[i]})) eqn:E'.
        -- apply bool_decide_eq_true in E'. sets.
        -- apply leibniz_equiv. intros j. destruct (decide (j = i)); sets.
      * apply bool_decide_eq_false in E. split; [sets|]. split; [intros j Hj; sets|].
        destruct (bool_decide (i ∈ selectedIds s ∪ {[i]})) eqn:E'.
        -- apply leibniz_equiv. intros j. destruct (decide (j = i)); sets.
        -- apply bool_decide_eq_false in E'. sets.
Qed.

Lemma word_click_selection_witness :
  selectedIds (handleWordClick fieldPage (pointerAt (3 # 4) (5 # 100) false)
                 (hello "1-0" 90%Q)
                 (overlay (play drawThenClick (mounted fieldPage initialFieldState))))
  = if decide (selectedIds (overlay (play drawThenClick
                                       (mounted fieldPage initialFieldState)))
               = {[ "1-0"%string ]})
    then ∅ else {[ "1-0"%string ]}.
Proof.
  apply (proj1 (proj2 (word_click_selection fieldPage
                         (pointerAt (3 # 4) (5 # 100) false) (hello "1-0" 90%Q)
                         (overlay (play drawThenClick
                                     (mounted fieldPage initialFieldState))))
                      eq_refl)).
  reflexivity.
Defined.

(** X16. Moving the pointer during a drag does not affect what the
    release does: the result depends only on where the drag started and
    where it was released. *)
Theorem moves_do_not_matter (p : Props) (e e' : MouseEvent) (s : Overlay) :
  handleMouseUp p e (handleMouseMove e' s) = handleMouseUp p e s.
Proof.
  unfold handleMouseMove, handleMouseUp.
  destruct (dragState s) as [d|] eqn:E; simpl; [|rewrite E; reflexivity].
  unfold dragBBox. simpl. reflexivity.
Qed.

Lemma idle_step_outside_field_mode ev a :
  isField (mode (props a)) = false -> Idle (overlay a) ->
  match ev with Render p => isField (mode p) = false | _ => True end ->
  enabled ev a = true ->
  isField (mode (props (handle ev a))) = false /\
  sameButTooltip (overlay a) (overlay (handle ev a)) /\
  store (handle ev a) = store a.
Proof.
  intros Hm (Hsel & Hdrag & Hrect & Hpop) Hev Hen.
  unfold sameButTooltip.
  destruct a as [p s st]. simpl in *.
  assert (Hsame : setTooltip (tooltip s) s = s) by (destruct s; reflexivity).
  destruct ev; simpl in *.
  - unfold handleWordClick. rewrite Hm. simpl. auto.
  - rewrite Hm. simpl. split; [exact Hm|]. split; [destruct s; reflexivity | reflexivity].
  - split; [exact Hm|]. split; [destruct s; reflexivity | reflexivity].
  - unfold handleMouseDown. rewrite Hm. simpl. auto.
  - unfold handleMouseMove. rewrite Hdrag. auto.
  - unfold handleMouseUp. rewrite Hdrag. auto.
  - rewrite Hm in Hen. discriminate.
  - rewrite Hm in Hen. discriminate.
  - rewrite Hpop in Hen. discriminate.
  - rewrite Hpop in Hen. discriminate.
  - rewrite Hpop in Hen. discriminate.
  - rewrite Hm in Hen. discriminate.
  - auto.
Qed.

Lemma sameButTooltip_Idle s s' : sameButTooltip s s' -> Idle s -> Idle s'.
Proof.
  unfold sameButTooltip, Idle. intros <-. destruct s'; simpl. tauto.
Qed.

Lemma sameButTooltip_trans s1 s2 s3 :
  sameButTooltip s1 s2 -> sameButTooltip s2 s3 -> sameButTooltip s1 s3.
Proof.
  unfold sameButTooltip. intros <- <-. destruct s3; reflexivity.
Qed.

(** X18. Outside field mode the overlay neither captures nor commits:
    starting idle, and as long as the mode is not switched to field, no run
    of events starts a drag, selects a word, stores a rectangle, opens the
    label prompt or changes the field store; only the hover tooltip can
    change. *)
Theorem quiet_outside_field_mode (evs : list event) (a : App) :
  isField (mode (props a)) = false -> Idle (overlay a) ->
  staysOutOfFieldMode evs ->
  Idle (overlay (play evs a)) /\
  sameButTooltip (overlay a) (overlay (play evs a)) /\
  store (play evs a) = store a.
Proof.
  revert a. induction evs as [|ev rest IH]; intros a Hm Hidle Hevs; simpl.
  - split; [exact Hidle|]. split; [destruct (overlay a); reflexivity | reflexivity].
  - inversion Hevs as [|? ? Hev Hrest]; subst.
    destruct (enabled ev a) eqn:Hen; [|apply IH; assumption].
    destruct (idle_step_outside_field_mode ev a Hm Hidle Hev Hen) as (Hm' & Hs & Hst).
    destruct (IH (handle ev a) Hm' (sameButTooltip_Idle _ _ Hs Hidle) Hrest)
      as (Hi & Hs' & Hst').
    split; [exact Hi|]. split; [|congruence].
    apply (sameButTooltip_trans _ _ _ Hs Hs').
Qed.

Lemma quiet_outside_field_mode_witness :
  store (play drawThenClick (mounted viewPage oneField)) = oneField.
Proof.
  apply (quiet_outside_field_mode drawThenClick (mounted viewPage oneField)).
  - reflexivity.
  - repeat split.
  - unfold staysOutOfFieldMode, drawThenClick. repeat constructor.
Defined.

(** X19. What a submit commits. With a blank label nothing changes. With
    a label and a pending rectangle, the current page gains exactly one
    annotation: its label is the trimmed input, its box the drawn rectangle
    as it is, its value the captured text and its wordIds the ids of the
    words kept at release. With a label, no pending rectangle and a
    selection, the page gains one annotation whose value joins the texts of
    the selected words in page order and whose box is the merge of their
    boxes. With neither, the store is unchanged. *)
Theorem submit_commits (uuid : string) (now : Z) (p : Props) (s : Overlay)
    (st : FieldState) :
  let r := handleSaveField uuid now p s st in
  let label := trim (labelInput s) in
  (label = [] -> r = (s, st)) /\
  (label <> [] ->
     (forall rect, pendingRect s = Some rect ->
        exists f, getPageFields (pageNumber p) (snd r)
                  = getPageFields (pageNumber p) st ++ [f] /\
                  FieldAnnotation.label f = label /\
                  FieldAnnotation.bbox f = finiteBBox rect /\
                  FieldAnnotation.value f = capturedTextRef s /\
                  FieldAnnotation.wordIds f
                  = List.map OCRWord.id (pendingWordsRef s)) /\
     (pendingRect s = None -> selectedIds s <> ∅ ->
        exists f, getPageFields (pageNumber p) (snd r)
                  = getPageFields (pageNumber p) st ++ [f] /\
                  FieldAnnotation.label f = label /\
                  FieldAnnotation.value f
                  = join (js " ") (List.map OCRWord.text (selectedWords p s)) /\
                  FieldAnnotation.bbox f
                  = mergeBBoxes (List.map OCRWord.bbox (selectedWords p s)) /\
                  FieldAnnotation.wordIds f
                  = List.map OCRWord.id (selectedWords p s)) /\
     (pendingRect s = None -> selectedIds s = ∅ -> snd r = st) /\
     labelPopup (fst r) = None /\ labelInput (fst r) = []).
Proof.
  intros r label. unfold r, handleSaveField. fold label. split.
  - intros ->. reflexivity.
  - intros Hl. destruct label as [|c l] eqn:El; [congruence|]. clear Hl.
    destruct (pendingRect s) as [rect|] eqn:Er.
    + simpl. split; [|split; [discriminate|split; [discriminate|split; reflexivity]]].
      intros rect' [= <-]. eexists. unfold addFieldRect. simpl.
      rewrite getPageFields_storeField. simpl.
      destruct (decide (pageNumber p = pageNumber p)); [|congruence].
      repeat split.
    + destruct (negb (size (selectedIds s) =? 0)%nat) eqn:Es; simpl.
      * split; [intros rect' [=]|]. split; [|split; [|split; reflexivity]].
        -- intros _ _. eexists. unfold addField. simpl.
           rewrite getPageFields_storeField. simpl.
           destruct (decide (pageNumber p = pageNumber p)); [|congruence].
           repeat split.
        -- intros _ He. rewrite He in Es. discriminate.
      * apply selected_none in Es.
        split; [intros rect' [=]|]. split; [|split; [|split; reflexivity]].
        -- intros _ Hne. contradiction.
        -- intros _ _. reflexivity.
Qed.

Lemma submit_commits_witness :
  handleSaveField "f1" 1000 fieldPage
    (setLabelInput (js "   ")
       (overlay (play drawThenClick (mounted fieldPage initialFieldState))))
    initialFieldState
  = (setLabelInput (js "   ")
       (overlay (play drawThenClick (mounted fieldPage initialFieldState))),
     initialFieldState).
Proof.
  apply (proj1 (submit_commits "f1" 1000 fieldPage
                  (setLabelInput (js "   ")
                     (overlay (play drawThenClick
                                 (mounted fieldPage initialFieldState))))
                  initialFieldState)).
  reflexivity.
Defined.

Lemma captured_id_from_words words box i :
  In i (cr_wordIds (captureTextInBox words box)) ->
  exists w, In w words /\ OCRWord.id w = i.
Proof.
  simpl. intros Hin. apply in_map_iff in Hin. destruct Hin as (e & <- & He).
  unfold captured in He. apply sort_In, collect_In in He.
  destruct He as (w & Hw & Hc). exists w. split; [exact Hw|].
  symmetry. apply (captureWord_id box w e Hc).
Qed.

Lemma includes_In ids i : includes ids i = true <-> In i ids.
Proof.
  unfold includes. rewrite existsb_exists. split.
  - intros (j & Hj & E). apply String.eqb_eq in E. subst. exact Hj.
  - intros H. exists i. split; [exact H | apply String.eqb_refl].
Qed.

(** The words kept at release carry exactly the captured ids. *)
Lemma kept_ids words box i :
  In i (List.map OCRWord.id
          (List.filter (fun w => includes (cr_wordIds (captureTextInBox words box))
                                          (OCRWord.id w)) words))
  <-> In i (cr_wordIds (captureTextInBox words box)).
Proof.
  rewrite in_map_iff. split.
  - intros (w & <- & Hw). apply filter_In in Hw. apply includes_In. tauto.
  - intros Hi. destruct (captured_id_from_words words box i Hi) as (w & Hw & <-).
    exists w. split; [reflexivity|]. apply filter_In. split; [exact Hw|].
    apply includes_In. exact Hi.
Qed.

(** X20. Drawing a field from start to end. In field mode, a press on the
    background, a release that spans at least 0.01 in both axes, a
    non-blank label and submit add exactly one annotation to the current
    page: its box is the drawn rectangle, its value the text that
    captureTextInBox returns for that rectangle on the page's words, its
    wordIds the captured ids, its label the trimmed input; the overlay is
    idle again afterwards. *)
Theorem draw_field_end_to_end (a : App) (press release : MouseEvent)
    (label : jsstring) (uuid : string) (now : Z) :
  isField (mode (props a)) = true -> onBackground press = true ->
  tooSmall (dragBBox (mkDrag (norm press) (norm press)) release) = false ->
  trim label <> [] ->
  let box := dragBBox (mkDrag (norm press) (norm press)) release in
  let cap := captureTextInBox (words (props a)) box in
  let a' := play (drawField press release label uuid now) a in
  (exists f,
     getPageFields (pageNumber (props a)) (store a')
     = getPageFields (pageNumber (props a)) (store a) ++ [f] /\
     FieldAnnotation.id f = uuid /\
     FieldAnnotation.label f = trim label /\
     FieldAnnotation.bbox f = finiteBBox box /\
     FieldAnnotation.value f = cr_text cap /\
     (forall i, In i (FieldAnnotation.wordIds f) <-> In i (cr_wordIds cap))) /\
  Idle (overlay a').
Proof.
  intros Hm Hbg Hbig Hl box cap a'.
  destruct a as [p s st]. cbn [props store overlay] in *.
  unfold a', drawField.
  cbn -[tooSmall dragBBox captureTextInBox trim getPageFields handleMouseUp
        handleSaveField handleMouseDown].
  unfold handleMouseDown. rewrite Hm, Hbg.
  cbn -[tooSmall dragBBox captureTextInBox trim getPageFields handleSaveField].
  rewrite Hbig. fold box.
  cbn -[tooSmall dragBBox captureTextInBox trim getPageFields handleSaveField].
  unfold handleSaveField.
  cbn -[tooSmall dragBBox captureTextInBox trim getPageFields addFieldRect].
  destruct (trim label) as [|c l] eqn:El; [congruence|].
  cbn -[captureTextInBox getPageFields addFieldRect].
  split; [|repeat split].
  eexists. unfold addFieldRect.
  cbn -[captureTextInBox getPageFields storeField].
  rewrite getPageFields_storeField.
  cbn -[captureTextInBox getPageFields].
  destruct (decide (pageNumber p = pageNumber p)); [|congruence].
  split; [reflexivity|].
  split; [reflexivity|]. split; [reflexivity|]. split; [reflexivity|].
  split; [reflexivity|].
  intros i. apply (kept_ids (words p) box i).
Qed.

Lemma draw_field_end_to_end_witness :
  Idle (overlay (play (drawField (pointerAt 0 (1 # 2) true)
                                 (pointerAt (1 # 2) 0 false)
                                 (js " Greeting ") "f1" 1000)
                      (mounted fieldPage initialFieldState))).
Proof.
  apply (draw_field_end_to_end (mounted fieldPage initialFieldState)
           (pointerAt 0 (1 # 2) true) (pointerAt (1 # 2) 0 false)
           (js " Greeting ") "f1" 1000).
  - reflexivity.
  - reflexivity.
  - vm_compute. reflexivity.
  - vm_compute. discriminate.
Defined.

Lemma clamp01_in_unit q : inUnit (clamp01 (Fin q)).
Proof.
  unfold inUnit, clamp01. simpl. eexists. split; [reflexivity|].
  split; [apply Q.le_max_l|].
  apply Q.max_lub; [lra | apply Q.le_min_l].
Qed.

(** X21. toNorm gives fractions of the overlay: without a bounding
    rectangle it is the origin; with a rectangle of non-zero width and
    height both coordinates lie between 0 and 1, wherever the pointer is;
    and for a pointer within a rectangle of positive size they are the
    pointer's offsets divided by the rectangle's width and height. *)
Theorem toNorm_fractions (clientX clientY : Q) :
  toNorm clientX clientY None = (Fin 0, Fin 0) /\
  (forall r, ~ (DOMRect.width r == 0)%Q -> ~ (DOMRect.height r == 0)%Q ->
     inUnit (fst (toNorm clientX clientY (Some r))) /\
     inUnit (snd (toNorm clientX clientY (Some r)))) /\
  (forall r,
     (0 < DOMRect.width r)%Q -> (0 < DOMRect.height r)%Q ->
     (DOMRect.left r <= clientX <= DOMRect.left r + DOMRect.width r)%Q ->
     (DOMRect.top r <= clientY <= DOMRect.top r + DOMRect.height r)%Q ->
     exists x y, toNorm clientX clientY (Some r) = (Fin x, Fin y) /\
                 (x == (clientX - DOMRect.left r) / DOMRect.width r)%Q /\
                 (y == (clientY - DOMRect.top r) / DOMRect.height r)%Q).
Proof.
  split; [reflexivity|]. split.
  - intros r Hw Hh. simpl. rewrite !js_div_nonzero by assumption.
    split; apply clamp01_in_unit.
  - intros r Hw Hh [Hx1 Hx2] [Hy1 Hy2]. simpl.
    rewrite !js_div_nonzero by lra. simpl.
    eexists. eexists. split; [reflexivity|].
    assert (Hfx : (0 <= (clientX - DOMRect.left r) / DOMRect.width r <= 1)%Q).
    { split; [apply Qle_shift_div_l | apply Qle_shift_div_r]; lra. }
    assert (Hfy : (0 <= (clientY - DOMRect.top r) / DOMRect.height r <= 1)%Q).
    { split; [apply Qle_shift_div_l | apply Qle_shift_div_r]; lra. }
    split.
    + rewrite (Q.min_r 1) by tauto. apply Q.max_r. tauto.
    + rewrite (Q.min_r 1) by tauto. apply Q.max_r. tauto.
Qed.

Lemma toNorm_fractions_witness :
  inUnit (fst (toNorm 1200 (-40) (Some (DOMRect.mk 100 50 800 1000)))).
Proof.
  apply (proj1 (proj2 (toNorm_fractions 1200 (-40)))
           (DOMRect.mk 100 50 800 1000)).
  - vm_compute. discriminate.
  - vm_compute. discriminate.
Defined.

(** ** Text source adapters *)

Lemma numbered_app p k l1 l2 :
  numbered p k (l1 ++ l2) = numbered p k l1 ++ numbered p (k + length l1) l2.
Proof.
  revert k. induction l1 as [|w l1 IH]; intros k; simpl.
  - rewrite Nat.add_0_r. reflexivity.
  - rewrite IH. do 3 f_equal. lia.
Qed.

(** A loop that pushes the spoken words of [g x] for each [x] pushes the
    spoken words of the flattened list. *)
Lemma fold_numbered {X} p (g : X -> list Tesseract.Word)
    (step : list OCRWord.t * nat -> X -> list OCRWord.t * nat) :
  (forall acc x,
     step acc x = (fst acc ++ numbered p (snd acc) (List.filter spoken (g x)),
                   snd acc + length (List.filter spoken (g x)))) ->
  forall xs acc,
    fold_left step xs acc
    = (fst acc ++ numbered p (snd acc) (List.filter spoken (flat_map g xs)),
       snd acc + length (List.filter spoken (flat_map g xs))).
Proof.
  intros Hstep xs. induction xs as [|x xs IH]; intros acc; simpl.
  - rewrite app_nil_r, Nat.add_0_r. destruct acc; reflexivity.
  - rewrite IH, Hstep. simpl.
    rewrite List.filter_app, numbered_app, length_app, <- app_assoc.
    f_equal. lia.
Qed.

Lemma pushWord_numbered p acc w :
  pushWord p acc w
  = (fst acc ++ numbered p (snd acc) (List.filter spoken [w]),
     snd acc + length (List.filter spoken [w])).
Proof.
  unfold pushWord. simpl. unfold spoken.
  destruct (blank (Tesseract.text w)); simpl.
  - rewrite app_nil_r, Nat.add_0_r. destruct acc; reflexivity.
  - f_equal. lia.
Qed.

Lemma flat_map_singleton {X} (l : list X) : flat_map (fun x => [x]) l = l.
Proof. induction l as [|x l IH]; simpl; congruence. Qed.

Lemma eachLine_numbered p acc line :
  eachLine p acc line
  = (fst acc ++ numbered p (snd acc)
                  (List.filter spoken (default [] (Tesseract.words line))),
     snd acc + length (List.filter spoken (default [] (Tesseract.words line)))).
Proof.
  unfold eachLine.
  rewrite (fold_numbered p (fun w => [w]) (pushWord p) (pushWord_numbered p)).
  rewrite flat_map_singleton. reflexivity.
Qed.

Lemma NoDup_map_injective {X Y} (f : X -> Y) (l : list X) :
  (forall a b, f a = f b -> a = b) -> List.NoDup l -> List.NoDup (List.map f l).
Proof.
  intros Hinj Hnd. induction Hnd as [|a l Hnotin Hnd IH]; simpl; constructor.
  - intros Hin. apply in_map_iff in Hin. destruct Hin as (b & E & Hb).
    apply Hinj in E. subst b. contradiction.
  - exact IH.
Qed.

Lemma wordId_inj p j k : wordId p j = wordId p k -> j = k.
Proof.
  intros H. unfold wordId in H.
  apply String.app_inj in H. apply String.app_inj in H.
  apply (inj pretty) in H. exact H.
Qed.

Lemma numbered_ids p k l :
  List.map OCRWord.id (numbered p k l) = List.map (wordId p) (seq k (length l)).
Proof.
  revert k. induction l as [|w l IH]; intros k; simpl; [reflexivity|].
  rewrite IH. reflexivity.
Qed.

(** X22. recognizePage flattens the recogniser's blocks, paragraphs and
    lines (a missing level counts as empty) into the words in document
    order, leaves out those whose text is blank, and numbers the rest
    0, 1, 2, ... without gaps: the k-th kept word has the id
    `<page>-<k>` and the recogniser's text, confidence and box. No two
    words get the same id. *)
Theorem recognizePage_numbers_words (data : Tesseract.Data) (p : Z) :
  OCRResult.words (recognizePage data p)
  = numbered p 0 (List.filter spoken (tokens data)) /\
  List.NoDup (List.map OCRWord.id (OCRResult.words (recognizePage data p))) /\
  length (OCRResult.words (recognizePage data p))
  = length (List.filter spoken (tokens data)) /\
  OCRResult.fullText (recognizePage data p) = Tesseract.pageText data /\
  OCRResult.pageNumber (recognizePage data p) = p.
Proof.
  assert (Hw : OCRResult.words (recognizePage data p)
               = numbered p 0 (List.filter spoken (tokens data))).
  { unfold recognizePage, tokens. simpl.
    rewrite (fold_numbered p
               (fun block =>
                  flat_map (fun para =>
                    flat_map (fun line => default [] (Tesseract.words line))
                             (default [] (Tesseract.lines para)))
                    (default [] (Tesseract.paragraphs block)))
               (eachBlock p)); [reflexivity|].
    intros acc block. unfold eachBlock.
    apply (fold_numbered p
             (fun para => flat_map (fun line => default [] (Tesseract.words line))
                                   (default [] (Tesseract.lines para)))
             (eachParagraph p)).
    intros acc' para. unfold eachParagraph.
    apply (fold_numbered p (fun line => default [] (Tesseract.words line))
             (eachLine p)).
    apply eachLine_numbered. }
  split; [exact Hw|]. rewrite Hw. split; [|split; [|split; reflexivity]].
  - rewrite numbered_ids.
    apply NoDup_map_injective; [apply wordId_inj | apply List.seq_NoDup].
  - rewrite <- (length_map OCRWord.id), numbered_ids, length_map, length_seq.
    reflexivity.
Qed.

Lemma trim_idempotent s : trim (trim s) = trim s.
Proof.
  destruct (trim_trimmed s) as [E|[(c & rest & E1 & Hc) (front & d & E2 & Hd)]].
  - rewrite E. reflexivity.
  - unfold trim at 1. rewrite E1 at 1. rewrite (trimStart_fixed c rest Hc).
    rewrite <- E1, E2, rev_app_distr. simpl. rewrite Hd. simpl.
    rewrite rev_involutive. reflexivity.
Qed.

Lemma textItems_In items item :
  In item (textItems items) <-> In (TextItem item) items /\ trim (str item) <> [].
Proof.
  unfold textItems. rewrite in_flat_map. split.
  - intros ([it|] & Hin & Hit); [|destruct Hit].
    destruct (trim (str it)) as [|c l] eqn:E; simpl in Hit; [destruct Hit|].
    destruct Hit as [<-|[]]. split; [exact Hin | rewrite E; discriminate].
  - intros [Hin Hne]. exists (TextItem item). split; [exact Hin|].
    destruct (trim (str item)); [congruence | left; reflexivity].
Qed.

Lemma textItems_nil items : textItems items = [] <-> Forall yieldsNoWord items.
Proof.
  induction items as [|it items IH]; simpl.
  - split; [constructor | reflexivity].
  - split.
    + intros H. apply app_eq_nil in H. destruct H as [H1 H2].
      constructor; [|apply IH; exact H2].
      destruct it as [item|]; simpl; [|exact I].
      destruct (trim (str item)); [reflexivity | discriminate].
    + intros H. inversion H as [|? ? Hit Hrest]; subst.
      rewrite (proj2 IH Hrest), app_nil_r.
      destruct it as [item|]; simpl in *; [|reflexivity]. rewrite Hit. reflexivity.
Qed.

Lemma fold_pushItem hypot view p tis : forall acc,
  (forall item, In item tis -> trim (str item) <> []) ->
  fold_left (pushItem hypot view p) tis acc
  = (fst acc ++ embeddedWords hypot view p (snd acc) tis, snd acc + length tis).
Proof.
  induction tis as [|item tis IH]; intros acc Hne; simpl.
  - rewrite app_nil_r, Nat.add_0_r. destruct acc; reflexivity.
  - rewrite IH by (intros it Hit; apply Hne; right; exact Hit).
    unfold pushItem.
    destruct (trim (str item)) as [|c l] eqn:E.
    + exfalso. apply (Hne item); [left; reflexivity | exact E].
    + simpl. rewrite <- app_assoc. simpl. f_equal. lia.
Qed.

Lemma extractPageText_words hypot view items p :
  fst (fold_left (pushItem hypot view p) (textItems items) ([], 0))
  = embeddedWords hypot view p 0 (textItems items).
Proof.
  rewrite fold_pushItem; [reflexivity|].
  intros item Hin. apply textItems_In in Hin. tauto.
Qed.

Lemma embeddedWords_length hypot view p k tis :
  length (embeddedWords hypot view p k tis) = length tis.
Proof. revert k. induction tis; intros k; simpl; [reflexivity | rewrite IHtis; reflexivity]. Qed.

(** X23. extractPageText returns null exactly when no entry of the text
    content yields a word, that is, when every entry is not a text item or
    has a string that trims to the empty string. *)
Theorem extractPageText_absent_iff_no_text (hypot : Q -> Q -> Q) (view : PageView)
    (items : list ContentItem) (p : Z) :
  extractPageText hypot view items p = None <-> Forall yieldsNoWord items.
Proof.
  rewrite <- textItems_nil. unfold extractPageText.
  rewrite extractPageText_words, embeddedWords_length.
  destruct (textItems items) as [|item tis]; simpl; split; congruence.
Qed.

Lemma embeddedId_inj p j k : embeddedId p j = embeddedId p k -> j = k.
Proof.
  intros H. unfold embeddedId in H.
  apply String.app_inj in H. apply String.app_inj in H.
  apply (inj pretty) in H. exact H.
Qed.

Lemma embeddedWords_ids hypot view p k tis :
  List.map RawWord.id (embeddedWords hypot view p k tis)
  = List.map (embeddedId p) (seq k (length tis)).
Proof.
  revert k. induction tis as [|item tis IH]; intros k; simpl; [reflexivity|].
  rewrite IH. reflexivity.
Qed.

Lemma embeddedWords_texts hypot view p tis : forall k,
  (forall item, In item tis -> trim (str item) <> []) ->
  Forall (fun w => RawWord.text w <> [] /\ trim (RawWord.text w) = RawWord.text w /\
                   RawWord.confidence w = 100%Q)
         (embeddedWords hypot view p k tis).
Proof.
  induction tis as [|item tis IH]; intros k Hne; simpl; constructor.
  - simpl. split; [apply Hne; left; reflexivity|].
    split; [apply trim_idempotent | reflexivity].
  - apply IH. intros it Hit. apply Hne. right. exact Hit.
Qed.

(** X24. When extractPageText returns a result, it holds one word for
    each text item with a non-blank string, in the items' order: the k-th
    such item gives the word with id `<page>-emb-<k>`, the item's string
    trimmed as text, confidence 100 and the item's normalised box. Every
    text is non-empty and trimmed, no two ids are equal, and fullText joins
    the items' strings, untrimmed, with single spaces. *)
Theorem extractPageText_words_of_items (hypot : Q -> Q -> Q) (view : PageView)
    (items : list ContentItem) (p : Z) (r : RawResult.t) :
  extractPageText hypot view items p = Some r ->
  RawResult.words r = embeddedWords hypot view p 0 (textItems items) /\
  length (RawResult.words r) = length (textItems items) /\
  List.NoDup (List.map RawWord.id (RawResult.words r)) /\
  Forall (fun w => RawWord.text w <> [] /\ trim (RawWord.text w) = RawWord.text w /\
                   RawWord.confidence w = 100%Q)
         (RawResult.words r) /\
  RawResult.fullText r = join (js " ") (List.map str (textItems items)) /\
  RawResult.pageNumber r = p.
Proof.
  unfold extractPageText. rewrite extractPageText_words, embeddedWords_length.
  destruct (length (textItems items) =? 0)%nat; [discriminate|].
  intros [= <-]. simpl.
  split; [reflexivity|]. split; [apply embeddedWords_length|].
  split; [|split; [|split; reflexivity]].
  - rewrite embeddedWords_ids.
    apply NoDup_map_injective; [apply embeddedId_inj | apply List.seq_NoDup].
  - apply embeddedWords_texts. intros item Hin. apply textItems_In in Hin. tauto.
Qed.

Lemma clamp_mono a b :
  (a <= b)%Q -> (0 <= Qmax 0 (Qmin 1 a) /\ Qmax 0 (Qmin 1 a) <= Qmax 0 (Qmin 1 b) /\
                Qmax 0 (Qmin 1 b) <= 1)%Q.
Proof.
  intros H. split; [apply Q.le_max_l|]. split.
  - apply Q.max_le_compat_l. apply Q.min_le_compat_l. exact H.
  - apply Q.max_lub; [lra | apply Q.le_min_l].
Qed.

Lemma Qdiv_le_mono a b c : (0 < c)%Q -> (a <= b)%Q -> (a / c <= b / c)%Q.
Proof.
  intros Hc H. apply Qle_shift_div_l; [exact Hc|].
  unfold Qdiv. rewrite <- Qmult_assoc, (Qmult_comm (/ c)), Qmult_inv_r by lra. lra.
Qed.

(** X25. On a page of positive width and height, the box extractPageText
    gives a word satisfies the NormalizedBBox invariant whatever the item's
    position and size: its corners are finite, 0 <= x0 <= x1 <= 1 and
    0 <= y0 <= y1 <= 1 (the height taken for the item, its own or the font
    size, being non-negative). *)
Theorem embeddedBBox_is_normalized (hypot : Q -> Q -> Q) (view : PageView)
    (item : PdfTextItem) :
  (0 < pageWidth view)%Q -> (0 < pageHeight view)%Q ->
  (0 <= itemHeight hypot item)%Q ->
  normalizedBBox (embeddedBBox hypot view item).
Proof.
  intros HW HH Hh. unfold normalizedBBox, embeddedBBox.
  rewrite !js_div_nonzero by lra. simpl.
  do 4 eexists. split; [reflexivity|].
  set (tx := (transform4 item - view0 view)%Q).
  set (ty := (transform5 item - view1 view)%Q).
  pose proof (Qabs_nonneg (width item)) as Habs.
  assert (Hx : (tx / pageWidth view <= (tx + Qabs (width item)) / pageWidth view)%Q).
  { apply Qdiv_le_mono; lra. }
  assert (Hy : (1 - (ty + itemHeight hypot item) / pageHeight view
                <= 1 - ty / pageHeight view)%Q).
  { pose proof (Qdiv_le_mono ty (ty + itemHeight hypot item) (pageHeight view) HH).
    lra. }
  destruct (clamp_mono _ _ Hx) as (A1 & A2 & A3).
  destruct (clamp_mono _ _ Hy) as (B1 & B2 & B3).
  repeat split; assumption.
Qed.

Lemma extractPageText_words_of_items_witness :
  length (RawResult.words
            (RawResult.mk 3
               (embeddedWords unusedHypot letterView 3 0 [totalItem])
               (js " Total ")))
  = length (textItems [TextItem blankItem; OtherItem; TextItem totalItem]).
Proof.
  apply (extractPageText_words_of_items unusedHypot letterView
           [TextItem blankItem; OtherItem; TextItem totalItem] 3).
  vm_compute. reflexivity.
Defined.

Lemma embeddedBBox_is_normalized_witness :
  normalizedBBox (embeddedBBox unusedHypot letterView totalItem).
Proof.
  apply (embeddedBBox_is_normalized unusedHypot letterView totalItem).
  - vm_compute. reflexivity.
  - vm_compute. reflexivity.
  - vm_compute. discriminate.
Defined.

Lemma Qdiv_scale k a c : ~ (k == 0)%Q -> ~ (c == 0)%Q -> (k * a / (k * c) == a / c)%Q.
Proof. intros Hk Hc. field. split; assumption. Qed.

(** X26. The normalisation in runOCR. For a canvas of positive size and a
    word box that lies on it, the normalised box satisfies the
    NormalizedBBox invariant. Multiplying the box and the canvas size by the
    same non-zero factor, as a device pixel ratio does, gives the same
    normalised box. Ids, texts and confidences pass through unchanged. *)
Theorem runOCR_normalisation (b : OCRBBox) (cw ch : Q) :
  (0 < cw)%Q -> (0 < ch)%Q ->
  (onCanvas b cw ch -> normalizedBBox (ocrBBox b cw ch)) /\
  (forall k, ~ (k == 0)%Q ->
     sameBBox (ocrBBox (scaleBBox k b) (k * cw) (k * ch)) (ocrBBox b cw ch)) /\
  (forall result,
     List.map RawWord.id (RawResult.words (normalizeResult result cw ch))
     = List.map OCRWord.id (OCRResult.words result) /\
     List.map RawWord.text (RawResult.words (normalizeResult result cw ch))
     = List.map OCRWord.text (OCRResult.words result) /\
     List.map RawWord.confidence (RawResult.words (normalizeResult result cw ch))
     = List.map OCRWord.confidence (OCRResult.words result)).
Proof.
  intros Hw Hh. split; [|split].
  - intros (A1 & A2 & A3 & A4 & A5 & A6). unfold normalizedBBox, ocrBBox.
    rewrite !js_div_nonzero by lra. do 4 eexists. split; [reflexivity|].
    repeat split;
      first [ apply Qle_shift_div_l; lra | apply Qle_shift_div_r; lra
            | apply Qdiv_le_mono; lra ].
  - intros k Hk. unfold sameBBox, ocrBBox, scaleBBox. simpl.
    assert (Hkw : ~ (k * cw == 0)%Q).
    { intros E. apply Qmult_integral in E. destruct E; [contradiction | lra]. }
    assert (Hkh : ~ (k * ch == 0)%Q).
    { intros E. apply Qmult_integral in E. destruct E; [contradiction | lra]. }
    rewrite !js_div_nonzero by (assumption || lra).
    repeat split; apply Qdiv_scale; (assumption || lra).
  - intros result. unfold normalizeResult. simpl.
    rewrite !List.map_map. repeat split.
Qed.

Lemma runOCR_normalisation_witness :
  normalizedBBox (ocrBBox pixelBox 800 1000).
Proof.
  apply (proj1 (runOCR_normalisation pixelBox 800 1000 eq_refl eq_refl)).
  unfold onCanvas, pixelBox. simpl. repeat split; lra.
Defined.

Lemma blank_false s : blank s = false <-> trim s <> [].
Proof. unfold blank. destruct (trim s); split; congruence. Qed.

(** X27. What embedOCRText draws. Every drawn text is a non-blank word of
    a result whose page exists in the document; it is drawn on that page
    with a font size of at least 1 and opacity 0, at the word's x0, with
    its baseline as far above the bottom of the page as the word's y1 is
    below the top. A result for a page number below 1 or above the number
    of pages draws nothing. *)
Theorem embedOCRText_draws (pages : list Q) (ocrResults : list (Z * OCRResult.t)) :
  (forall d, In d (embedOCRText pages ocrResults) ->
     exists entry word pageHeight,
       In entry ocrResults /\ In word (OCRResult.words (snd entry)) /\
       (1 <= fst entry <= Z.of_nat (length pages))%Z /\
       Z.of_nat (drawnOn d) = (fst entry - 1)%Z /\
       nth_error pages (drawnOn d) = Some pageHeight /\
       drawnText d = OCRWord.text word /\ trim (drawnText d) <> [] /\
       drawX d = x0 (OCRWord.bbox word) /\
       (drawY d == pageHeight - y1 (OCRWord.bbox word))%Q /\
       (1 <= drawSize d)%Q /\
       (y1 (OCRWord.bbox word) - y0 (OCRWord.bbox word) <= drawSize d)%Q /\
       drawOpacity d = 0%Q) /\
  (forall entry,
     (fst entry < 1 \/ Z.of_nat (length pages) < fst entry)%Z ->
     embedOCRText pages [entry] = []).
Proof.
  split.
  - intros d Hd. unfold embedOCRText in Hd. apply in_flat_map in Hd.
    destruct Hd as (entry & Hentry & Hd).
    destruct ((fst entry - 1 <? 0)%Z || (Z.of_nat (length pages) <=? fst entry - 1)%Z)
      eqn:Eg; [destruct Hd|].
    apply orb_false_iff in Eg. destruct Eg as [E1 E2].
    apply Z.ltb_ge in E1. apply Z.leb_gt in E2.
    destruct (nth_error pages (Z.to_nat (fst entry - 1))) as [h|] eqn:En; [|destruct Hd].
    unfold drawWords in Hd. apply in_flat_map in Hd.
    destruct Hd as (word & Hword & Hd).
    destruct (blank (OCRWord.text word)) eqn:Eb; [destruct Hd|].
    destruct Hd as [<-|[]]. simpl.
    exists entry, word, h.
    split; [exact Hentry|]. split; [exact Hword|]. split; [lia|].
    split; [lia|]. split; [exact En|]. split; [reflexivity|].
    split; [apply blank_false; exact Eb|]. split; [reflexivity|].
    split; [reflexivity|]. split; [apply Q.le_max_r|].
    split; [apply Q.le_max_l | reflexivity].
  - intros entry Hout. unfold embedOCRText. simpl.
    destruct ((fst entry - 1 <? 0)%Z || (Z.of_nat (length pages) <=? fst entry - 1)%Z)
      eqn:Eg; [reflexivity|].
    apply orb_false_iff in Eg. destruct Eg as [E1 E2].
    apply Z.ltb_ge in E1. apply Z.leb_gt in E2. lia.
Qed.

Lemma embedOCRText_draws_witness :
  embedOCRText [792%Q] [(2%Z, OCRResult.mk 2 [wordA] (js "A"))] = [].
Proof.
  apply (proj2 (embedOCRText_draws [792%Q] [(2%Z, OCRResult.mk 2 [wordA] (js "A"))])).
  right. simpl. lia.
Defined.

(** ** Labels *)

Lemma cleanLabels_storeField f st :
  cleanLabels st ->
  FieldAnnotation.label f <> [] ->
  trim (FieldAnnotation.label f) = FieldAnnotation.label f ->
  cleanLabels (storeField f st).
Proof.
  intros Hc H1 H2 p g Hg. rewrite getPageFields_storeField in Hg.
  destruct (decide (FieldAnnotation.pageNumber f = p)); [|apply (Hc p g Hg)].
  apply in_app_iff in Hg. destruct Hg as [Hg|[<-|[]]]; [apply (Hc p g Hg) | auto].
Qed.

Lemma cleanLabels_removeField i q st : cleanLabels st -> cleanLabels (removeField i q st).
Proof.
  intros Hc p g Hg. rewrite getPageFields_removeField in Hg.
  destruct (decide (q = p)); [|apply (Hc p g Hg)].
  apply filter_In in Hg. apply (Hc p g). tauto.
Qed.

Lemma cleanLabels_updateLabel i q l st :
  cleanLabels st -> l <> [] -> trim l = l -> cleanLabels (updateLabel i q l st).
Proof.
  intros Hc H1 H2 p g Hg. rewrite getPageFields_updateLabel in Hg.
  destruct (decide (q = p)); [|apply (Hc p g Hg)].
  apply in_map_iff in Hg. destruct Hg as (g0 & <- & Hg0).
  destruct (String.eqb (FieldAnnotation.id g0) i); [simpl; auto | apply (Hc p g0 Hg0)].
Qed.

Lemma cleanLabels_handleSaveField uuid now p s st :
  cleanLabels st -> cleanLabels (snd (handleSaveField uuid now p s st)).
Proof.
  intros Hc. unfold handleSaveField.
  pose proof (trim_idempotent (labelInput s)) as Hidem.
  destruct (trim (labelInput s)) as [|c l] eqn:El; [exact Hc|].
  destruct (pendingRect s).
  - simpl. apply cleanLabels_storeField; [exact Hc | discriminate | exact Hidem].
  - destruct (negb (size (selectedIds s) =? 0)%nat); simpl; [|exact Hc].
    apply cleanLabels_storeField; [exact Hc | discriminate | exact Hidem].
Qed.

(** X28. Labels stay clean. If every label in the field store is
    non-blank and trimmed, it is still so after any event of the overlay
    and after the sidebar's saveLabel: a submit stores the trimmed, non-blank
    input, a rename stores the trimmed text, and a rename to a blank text
    is ignored and leaves the store as it is. *)
Theorem labels_stay_clean :
  (forall ev a, cleanLabels (store a) -> cleanLabels (store (handle ev a))) /\
  (forall i p sb st, cleanLabels st -> cleanLabels (snd (saveLabel i p sb st))) /\
  (forall i p sb st, trim (editingLabel sb) = [] -> snd (saveLabel i p sb st) = st) /\
  (forall i p sb st, editingFieldId (fst (saveLabel i p sb st)) = None).
Proof.
  split; [|split; [|split]].
  - intros ev a Hc. destruct ev; simpl; try exact Hc.
    + destruct (isField (mode (props a))); exact Hc.
    + apply cleanLabels_handleSaveField. exact Hc.
    + apply cleanLabels_removeField. exact Hc.
  - intros i p sb st Hc. unfold saveLabel. simpl.
    destruct (blank (editingLabel sb)) eqn:Eb; [exact Hc|].
    apply blank_false in Eb.
    apply cleanLabels_updateLabel; [exact Hc | exact Eb | apply trim_idempotent].
  - intros i p sb st E. unfold saveLabel, blank. rewrite E. reflexivity.
  - reflexivity.
Qed.

Lemma labels_stay_clean_witness :
  cleanLabels (snd (saveLabel "f1" 1 (mkSidebar fieldsTab (Some "f1"%string) (js " Sum "))
                      oneField)).
Proof.
  apply (proj1 (proj2 labels_stay_clean)).
  intros p f Hin. unfold getPageFields in Hin.
  destruct (decide (p = 1%Z)) as [->|Hne].
  - vm_compute in Hin. destruct Hin as [<-|[]]. split; [discriminate | reflexivity].
  - unfold oneField, addFieldRect in Hin. simpl in Hin.
    rewrite lookup_insert_ne in Hin by congruence.
    rewrite lookup_empty in Hin. destruct Hin.
Defined.

(** ** Pages and results *)

Lemma runViewer_keeps_range evs : forall v n,
  forallb keepsDocument evs = true ->
  numPages v = n -> (1 <= currentPage v <= n)%Z ->
  numPages (runViewer evs v) = n /\ (1 <= currentPage (runViewer evs v) <= n)%Z.
Proof.
  induction evs as [|ev rest IH]; intros v n Hk Hn Hp; simpl; [auto|].
  apply andb_true_iff in Hk. destruct Hk as [Hev Hrest].
  apply IH; [exact Hrest | |]; destruct ev; simpl in *; try discriminate;
    try assumption; try (destruct result; simpl; assumption); lia.
Qed.

(** X29. Once a document with at least one page has loaded, the current
    page stays within 1 .. numPages whatever is clicked until the next
    document is opened: prevPage and nextPage stop at the first and the last
    page, and no other event moves the page. *)
Theorem page_stays_in_document (evs : list viewerEvent) (n : Z) (v : Viewer) :
  (1 <= n)%Z -> forallb keepsDocument evs = true ->
  let v' := runViewer evs (handleDocumentLoad n v) in
  numPages v' = n /\ (1 <= currentPage v' <= n)%Z /\
  currentPage (prevPage (handleDocumentLoad n v)) = 1%Z /\
  (currentPage v' = n -> currentPage (nextPage v') = n).
Proof.
  intros Hn Hk v'.
  destruct (runViewer_keeps_range evs (handleDocumentLoad n v) n Hk eq_refl)
    as [H1 H2]; [simpl; lia|].
  split; [exact H1|]. split; [exact H2|]. split; [reflexivity|].
  intros E. unfold nextPage. simpl. unfold v' in *. rewrite H1, E. lia.
Qed.

Lemma page_stays_in_document_witness :
  (1 <= currentPage (runViewer [NextPage; NextPage; OcrStarted; NextPage; PrevPage]
                               (handleDocumentLoad 3 initialViewer)) <= 3)%Z.
Proof.
  apply (page_stays_in_document [NextPage; NextPage; OcrStarted; NextPage; PrevPage]
           3 initialViewer).
  - lia.
  - reflexivity.
Defined.

Lemma digitized_step ev v :
  (forall p, p ∈ digitizedPages v -> is_Some (ocrResults v !! p)) ->
  forall p, p ∈ digitizedPages (viewerStep ev v) ->
            is_Some (ocrResults (viewerStep ev v) !! p).
Proof.
  intros Hinv p Hp. destruct ev; simpl in *; try (apply Hinv; exact Hp).
  - apply elem_of_empty in Hp. destruct Hp.
  - destruct result as [r|]; simpl in *; [|apply Hinv; exact Hp].
    destruct (decide (pageNumber0 = p)) as [->|Hne].
    + rewrite lookup_insert_eq. eauto.
    + rewrite lookup_insert_ne by exact Hne. apply Hinv.
      apply elem_of_union in Hp. destruct Hp as [Hp|Hp]; [exact Hp|].
      apply elem_of_singleton in Hp. congruence.
  - destruct (decide (page = p)) as [->|Hne].
    + rewrite lookup_insert_eq. eauto.
    + rewrite lookup_insert_ne by exact Hne. apply Hinv. exact Hp.
Qed.

(** X30. Every page marked as digitized has a result: whatever the order
    in which files are opened and extractions and recognitions complete, a
    page in digitizedPages has an entry in ocrResults. *)
Theorem digitized_pages_have_results (evs : list viewerEvent) (p : Z) :
  p ∈ digitizedPages (runViewer evs initialViewer) ->
  is_Some (ocrResults (runViewer evs initialViewer) !! p).
Proof.
  assert (H : forall v,
             (forall q, q ∈ digitizedPages v -> is_Some (ocrResults v !! q)) ->
             forall q, q ∈ digitizedPages (runViewer evs v) ->
                       is_Some (ocrResults (runViewer evs v) !! q)).
  { induction evs as [|ev rest IH]; intros v Hinv; simpl; [exact Hinv|].
    apply IH. apply digitized_step. exact Hinv. }
  apply H. intros q Hq. simpl in Hq. apply elem_of_empty in Hq. destruct Hq.
Qed.

Lemma digitized_pages_have_results_witness :
  is_Some (ocrResults
             (runViewer
                [PageTextExtracted 3
                   (extractPageText unusedHypot letterView [TextItem totalItem] 3)]
                initialViewer) !! 3%Z).
Proof.
  apply (digitized_pages_have_results
           [PageTextExtracted 3
              (extractPageText unusedHypot letterView [TextItem totalItem] 3)] 3).
  simpl. apply elem_of_union_r. apply elem_of_singleton. reflexivity.
Defined.

(** ** Double precision *)

(** *** The primitives on examples *)

Example double_round_examples :
  Double.Math_round 2.5 = Double.Int 3 /\
  Double.Math_round (-2.5) = Double.Int (-2) /\
  Double.Math_round 0.49999999999999994 = Double.Int 0 /\
  Double.Math_round (-0.2) = Double.Int 0 /\
  Double.Math_round 4503599627370497 = Double.Int 4503599627370497 /\
  Double.Math_round (0 / 0) = Double.IntNaN /\
  Double.Math_round (1 / 0) = Double.IntInf false.
Proof. repeat split; vm_compute; reflexivity. Qed.

Example double_minmax_examples :
  Double.Math_max 0 (-1) = 0%float /\ Double.Math_min 1 2 = 1%float /\
  Double.Math_max 0 (0 / 0) = PrimFloat.nan /\
  Double.Math_min (0 / 0) 1 = PrimFloat.nan /\
  Double.Math_max (-0) 0 = 0%float /\ Double.Math_min 0 (-0) = (-0)%float /\
  Double.Math_min_of [] = PrimFloat.infinity /\
  Double.Math_max_of [0.25; 0.75; 0.5]%float = 0.75%float.
Proof. repeat split; vm_compute; reflexivity. Qed.

Example double_slice_examples :
  Double.slice (js "HELLO") (Double.Int 1) (Double.IntInf false) = js "ELLO" /\
  Double.slice (js "HELLO") Double.IntNaN (Double.Int 3) = js "HEL" /\
  Double.slice (js "HELLO") Double.IntNaN Double.IntNaN = [] /\
  Double.slice (js "HELLO") (Double.IntInf true) (Double.Int (-2)) = js "HEL".
Proof. repeat split. Qed.

(** The example of the specification comes out the same in double
    precision: 0.5 * 5 is 2.5 exactly and rounds up to 3. *)
Example double_hello_left_half :
  Double.endRatio Double.hello Double.leftHalf = 0.5%float /\
  Double.endChar Double.hello Double.leftHalf = Double.Int 3 /\
  Double.captureTextInBox Double.insertionSort [Double.hello] Double.leftHalf
  = mkCapture (js "HEL") ["1-0"%string].
Proof. repeat split; vm_compute; reflexivity. Qed.

(** The sum 0.1 + 0.2 rounds up, and so does the midpoint: a word between
    the tops 0.1 and 0.2 belongs to a region that begins at
    0.15000000000000002. *)
Example midpoint_is_rounded :
  Double.cy Double.mid = 0.15000000000000002%float /\
  Double.captureTextInBox Double.insertionSort [Double.mid]
    (mkBBox 0 0.15000000000000002 1 1)%float
  = mkCapture (js "MID") ["1-1"%string].
Proof. split; vm_compute; reflexivity. Qed.

(** A drag from the pixel 1 to the pixel 9 of an overlay 800 pixels wide:
    the difference of 0.01125 and 0.00125 rounds to 0.01, which is not
    below [MIN_RECT]. *)
Example eight_pixel_drag_is_kept :
  let d := Double.mkDrag (Double.toNorm (Double.pointerAt 1 0 true))
                         (Double.toNorm (Double.pointerAt 1 0 true)) in
  let b := Double.dragBBox d (Double.pointerAt 9 500 true) in
  b = (mkBBox 0.00125 0 0.01125 0.5)%float /\
  (x1 b - x0 b)%float = 0.01%float /\ Double.tooSmall b = false.
Proof. repeat split; vm_compute; reflexivity. Qed.

(** A ratio just below a half character: 0.35 / 0.4 * 4 is
    3.4999999999999996 and rounds to 3. *)
Example ratio_rounds_down :
  let w := Double.OCRWord.mk "w" (js "ABCD") 90 (mkBBox 0.1 0 0.5 0.1)%float in
  let box := (mkBBox 0 0 0.45 1)%float in
  Double.endRatio w box = (0.35 / 0.4)%float /\
  Double.endChar w box = Double.Int 3 /\
  Double.captureTextInBox Double.insertionSort [w] box
  = mkCapture (js "ABC") ["w"%string].
Proof. repeat split; vm_compute; reflexivity. Qed.

(** The tops 0.00003 and 0.00803 count as one row: their difference rounds
    to 0.008. *)
Example row_test_is_rounded :
  Double.sameRow (Double.Entry.mk (js "A") "a" 0.00803 0.1)
                 (Double.Entry.mk (js "C") "c" 0.00003 0.05).
Proof. vm_compute. reflexivity. Qed.

(** A commit from the overlay stores the exact values of the rectangle's
    corners. *)
Example commit_drawn_rect :
  let f := fst (Double.addFieldRect "id" 0 1 (js "Name") Double.drawnRect
                  (Some (js "HEL")) (Some ["1-0"%string]) initialFieldState) in
  FieldAnnotation.bbox f = mkBBox (Fin 0) (Fin 0) (Fin (1 # 2)) (Fin (1 # 2)) /\
  FieldAnnotation.value f = js "HEL" /\
  FieldAnnotation.color f = "#6c63ff"%string.
Proof. vm_compute. repeat split. Qed.

(** *** The insertion sort as an engine *)

Lemma double_insert_sorted_perm cmp x l :
  Permutation (Double.insert_sorted cmp x l) (x :: l).
Proof.
  induction l as [|h t IH]; simpl; [reflexivity|].
  destruct (PrimFloat.leb (Double.sortCompare cmp x h) 0); [reflexivity|].
  rewrite IH. apply perm_swap.
Qed.

Lemma insertionSort_rearranges : Double.rearranges Double.insertionSort.
Proof.
  intros cmp l. induction l as [|x t IH]; simpl; [reflexivity|].
  rewrite double_insert_sorted_perm, IH. reflexivity.
Qed.

Lemma insertionSort_keepsOrdered : Double.keepsOrdered Double.insertionSort.
Proof.
  intros cmp l. induction l as [|a rest IH]; intros H; [reflexivity|].
  destruct rest as [|b r]; [reflexivity|].
  cbn [Double.inOrder] in H.
  apply andb_true_iff in H. destruct H as [H Hrest].
  apply andb_true_iff in H. destruct H as [Hab _].
  cbn [Double.insertionSort]. cbn [Double.insertionSort] in IH.
  rewrite (IH Hrest). cbn [Double.insert_sorted]. rewrite Hab. reflexivity.
Qed.

(** *** Region text capture *)

Lemma double_collect_In box words e :
  In e (Double.collect box words) <->
  exists w, In w words /\ Double.captureWord box w = Some e.
Proof.
  induction words as [|w ws IH]; simpl.
  - split; [tauto | intros (w & [] & _)].
  - destruct (Double.captureWord box w) as [e'|] eqn:E; simpl; rewrite IH; split.
    + intros [<-|(w' & Hin & Hc)]; eauto.
    + intros (w' & [<-|Hin] & Hc); [left; congruence | eauto].
    + intros (w' & Hin & Hc); eauto.
    + intros (w' & [<-|Hin] & Hc); [congruence | eauto].
Qed.

Lemma double_collect_app box ws1 ws2 :
  Double.collect box (ws1 ++ ws2) = Double.collect box ws1 ++ Double.collect box ws2.
Proof.
  induction ws1 as [|w ws IH]; simpl; [reflexivity|].
  destruct (Double.captureWord box w); simpl; congruence.
Qed.

Lemma double_captureWord_id box w e :
  Double.captureWord box w = Some e -> Double.Entry.id e = Double.OCRWord.id w.
Proof.
  unfold Double.captureWord.
  repeat match goal with |- context [if ?c then _ else _] => destruct c end;
    try discriminate.
  destruct (Double.extracted w box); [discriminate|].
  intros [= <-]. reflexivity.
Qed.

Lemma double_captureWord_outside box w :
  Double.outside w box -> Double.captureWord box w = None.
Proof.
  unfold Double.outside, Double.captureWord. intros [H|[H|H]].
  - rewrite H. reflexivity.
  - rewrite H, orb_true_r. reflexivity.
  - rewrite H. destruct (_ || _); reflexivity.
Qed.

Lemma double_collect_outside box words :
  (forall w, In w words -> Double.outside w box) -> Double.collect box words = [].
Proof.
  induction words as [|w ws IH]; intros Hout; simpl; [reflexivity|].
  rewrite (double_captureWord_outside box w) by (apply Hout; left; reflexivity).
  apply IH. intros w' Hw'. apply Hout. right. exact Hw'.
Qed.

(** C3. A word whose vertical midpoint, computed as the code computes it,
    lies outside [box.y0, box.y1], or whose horizontal intersection with
    the box is empty (max(x0, box.x0) >= min(x1, box.x1)), is excluded: the
    capture is the same as without the word, so it contributes nothing to
    the text; and on an engine whose sort returns the entries it was
    given, its id is not among the wordIds (unless another word of the
    list carries the same id). *)
Theorem C3_outside_word_excluded (Array_sort : Double.engine)
    (ws1 ws2 : list Double.OCRWord.t) (w : Double.OCRWord.t) (box : OCRBBoxOf float) :
  Double.outside w box ->
  Double.captureTextInBox Array_sort (ws1 ++ w :: ws2) box
  = Double.captureTextInBox Array_sort (ws1 ++ ws2) box /\
  (Double.rearranges Array_sort ->
   (forall w', In w' (ws1 ++ ws2) -> Double.OCRWord.id w' <> Double.OCRWord.id w) ->
   ~ In (Double.OCRWord.id w)
        (cr_wordIds (Double.captureTextInBox Array_sort (ws1 ++ w :: ws2) box))).
Proof.
  intros Hout.
  assert (Hc : Double.collect box (ws1 ++ w :: ws2) = Double.collect box (ws1 ++ ws2)).
  { rewrite !double_collect_app. simpl.
    rewrite (double_captureWord_outside box w Hout). reflexivity. }
  assert (Heq : Double.captureTextInBox Array_sort (ws1 ++ w :: ws2) box
                = Double.captureTextInBox Array_sort (ws1 ++ ws2) box).
  { unfold Double.captureTextInBox, Double.captured. rewrite Hc. reflexivity. }
  split; [exact Heq|].
  intros Hperm Hids Hin. rewrite Heq in Hin. simpl in Hin.
  apply in_map_iff in Hin. destruct Hin as (e & Hid & He).
  unfold Double.captured in He.
  apply (Permutation_in _ (Hperm _ _)) in He.
  apply double_collect_In in He. destruct He as (w' & Hw' & Hcap).
  apply double_captureWord_id in Hcap. apply (Hids w' Hw'). congruence.
Qed.

Lemma C3_outside_word_excluded_witness :
  ~ In (Double.OCRWord.id Double.mid)
       (cr_wordIds (Double.captureTextInBox Double.insertionSort
                      ([Double.hello] ++ Double.mid :: []) Double.leftHalf)).
Proof.
  apply (C3_outside_word_excluded Double.insertionSort [Double.hello] []
           Double.mid Double.leftHalf).
  - unfold Double.outside. right. left. vm_compute. reflexivity.
  - exact insertionSort_rearranges.
  - intros w' [<-|[]]. vm_compute. discriminate.
Defined.

(** X1. A capture that finds nothing returns the empty text and no ids:
    on an empty word list, and on a list all of whose words fail the
    midpoint test or the overlap test of the code. *)
Theorem capture_nothing (Array_sort : Double.engine) :
  Double.rearranges Array_sort ->
  (forall box, Double.captureTextInBox Array_sort [] box = mkCapture [] []) /\
  (forall words box, (forall w, In w words -> Double.outside w box) ->
     Double.captureTextInBox Array_sort words box = mkCapture [] []).
Proof.
  intros Hperm.
  assert (Hnil : forall cmp, Array_sort cmp [] = []).
  { intros cmp. apply Permutation_nil. symmetry. apply Hperm. }
  split.
  - intros box. unfold Double.captureTextInBox, Double.captured. simpl.
    rewrite Hnil. reflexivity.
  - intros words box Hout.
    unfold Double.captureTextInBox, Double.captured.
    rewrite (double_collect_outside box words Hout), Hnil. reflexivity.
Qed.

Lemma capture_nothing_witness :
  Double.captureTextInBox Double.insertionSort [Double.mid] Double.leftHalf
  = mkCapture [] [].
Proof.
  apply (proj2 (capture_nothing Double.insertionSort insertionSort_rearranges)).
  intros w [<-|[]]. unfold Double.outside. right. left. vm_compute. reflexivity.
Defined.

(** C4. On the rising line "C A B", given in the order B, C, A, the
    capture of the whole page returns "B C A" on every engine that leaves
    an array alone which is in order already: "A" and "B" are on the same
    row and "A" starts left of "B", and yet "B" comes first.  The
    comparator runs in a circle on the three entries ("A" before "B", "B"
    before "C", "C" before "A"), so that no arrangement is sorted and the
    order of the input decides. *)
Theorem C4_rising_line_out_of_order (Array_sort : Double.engine) :
  Double.keepsOrdered Array_sort ->
  let a := Double.entryOf Double.wordA in
  let b := Double.entryOf Double.wordB in
  let c := Double.entryOf Double.wordC in
  let out := Double.captured Array_sort [Double.wordB; Double.wordC; Double.wordA]
                             Double.unitBox in
  out = [b; c; a] /\
  Double.captureTextInBox Array_sort [Double.wordB; Double.wordC; Double.wordA]
                          Double.unitBox
  = mkCapture (js "B C A") ["b"; "c"; "a"]%string /\
  Double.sameRow a b /\ Double.leftOf a b /\
  ~ Double.inReadingOrder out /\
  (Double.readingOrder a b <? 0)%float = true /\
  (Double.readingOrder b c <? 0)%float = true /\
  (Double.readingOrder c a <? 0)%float = true.
Proof.
  intros Hkeep a b c out.
  assert (Hout : out = [b; c; a]).
  { unfold out, Double.captured.
    replace (Double.collect Double.unitBox [Double.wordB; Double.wordC; Double.wordA])
      with [b; c; a] by (vm_compute; reflexivity).
    apply Hkeep. vm_compute. reflexivity. }
  split; [exact Hout|].
  split.
  { unfold Double.captureTextInBox. fold out. rewrite Hout. vm_compute. reflexivity. }
  assert (Hrow : Double.sameRow a b) by (vm_compute; reflexivity).
  assert (Hleft : Double.leftOf a b) by (vm_compute; reflexivity).
  split; [exact Hrow|]. split; [exact Hleft|].
  split.
  - intros H. rewrite Hout in H.
    assert (Hlt : (2 < 0)%nat); [|lia].
    apply (H 2%nat 0%nat a b); [reflexivity | reflexivity | exact Hrow | exact Hleft].
  - repeat split; vm_compute; reflexivity.
Qed.

Lemma C4_rising_line_out_of_order_witness :
  Double.captureTextInBox Double.insertionSort
    [Double.wordB; Double.wordC; Double.wordA] Double.unitBox
  = mkCapture (js "B C A") ["b"; "c"; "a"]%string.
Proof.
  apply (C4_rising_line_out_of_order Double.insertionSort).
  exact insertionSort_keepsOrdered.
Defined.

(** *** Overlay interaction *)

Lemma double_play_reachable srt evs :
  forall a, Double.reachable srt a -> Double.reachable srt (Double.play srt evs a).
Proof.
  induction evs as [|ev rest IH]; intros a Ha; simpl; [exact Ha|].
  apply IH. destruct (Double.enabled ev a) eqn:E; [|exact Ha].
  apply Double.reach_step; assumption.
Qed.

(** While a drag is in progress no rectangle is pending: the press that
    starts the drag clears it and only a release stores one. *)
Lemma double_drag_excludes_pending srt a :
  Double.reachable srt a ->
  Double.dragState (Double.overlay a) = None \/
  Double.pendingRect (Double.overlay a) = None.
Proof.
  induction 1 as [p st|a ev Ha IH Hen].
  - left. reflexivity.
  - destruct ev; simpl; try exact IH.
    + unfold Double.handleWordClick.
      destruct (negb (isField (Double.mode (Double.props a)))); exact IH.
    + destruct (isField (Double.mode (Double.props a))); exact IH.
    + unfold Double.handleMouseDown.
      destruct (negb (isField (Double.mode (Double.props a)))); [exact IH|].
      destruct (negb (Double.onBackground e)); [exact IH|]. right. reflexivity.
    + unfold Double.handleMouseMove.
      destruct (Double.dragState (Double.overlay a)) eqn:E; [|left; exact E]. simpl.
      destruct IH as [IH|IH]; [discriminate | right; exact IH].
    + unfold Double.handleMouseUp.
      destruct (Double.dragState (Double.overlay a)) eqn:E; [|left; exact E].
      destruct (Double.tooSmall (Double.dragBBox d e)); left; reflexivity.
    + unfold Double.handleSaveField.
      destruct (trim (Double.labelInput (Double.overlay a))); [exact IH|].
      destruct (Double.pendingRect (Double.overlay a)); simpl; [right; reflexivity|].
      destruct (negb (size (Double.selectedIds (Double.overlay a)) =? 0)%nat);
        right; reflexivity.
    + right. reflexivity.
Qed.

(** A rectangle is stored only by a release that found it large enough. *)
Lemma double_pending_rect_size srt a :
  Double.reachable srt a ->
  forall r, Double.pendingRect (Double.overlay a) = Some r -> Double.tooSmall r = false.
Proof.
  induction 1 as [p st|a ev Ha IH Hen]; intros r Hr; [discriminate|].
  destruct ev; simpl in Hr; try (apply IH; exact Hr).
  - unfold Double.handleWordClick in Hr.
    destruct (negb (isField (Double.mode (Double.props a)))); apply IH; exact Hr.
  - destruct (isField (Double.mode (Double.props a))); apply IH; exact Hr.
  - unfold Double.handleMouseDown in Hr.
    destruct (negb (isField (Double.mode (Double.props a)))); [apply IH; exact Hr|].
    destruct (negb (Double.onBackground e)); [apply IH; exact Hr | discriminate].
  - unfold Double.handleMouseMove in Hr.
    destruct (Double.dragState (Double.overlay a)); apply IH; exact Hr.
  - unfold Double.handleMouseUp in Hr.
    destruct (Double.dragState (Double.overlay a)) as [d|]; [|apply IH; exact Hr].
    destruct (Double.tooSmall (Double.dragBBox d e)) eqn:Et; simpl in Hr;
      [apply IH; exact Hr|].
    injection Hr as <-. exact Et.
  - unfold Double.handleSaveField in Hr.
    destruct (trim (Double.labelInput (Double.overlay a))); [apply IH; exact Hr|].
    destruct (Double.pendingRect (Double.overlay a)); simpl in Hr; [discriminate|].
    destruct (negb (size (Double.selectedIds (Double.overlay a)) =? 0)%nat);
      discriminate.
  - discriminate.
Qed.

(** C5. A drag is in progress and the rectangle between its start and the
    release point is narrower or lower than 0.01, by the subtraction and
    the comparison the code performs: the release handler discards the
    drag.  The state after it is idle (no drag, no selected word, no
    pending rectangle, no label prompt); the refs that hold a capture's
    result, the label input and the store are as before, so no capture has
    been stored. *)
Theorem C5_small_drag_discarded (Array_sort : Double.engine) (a : Double.App)
    (e : Double.MouseEvent) (d : Double.DragState) :
  Double.reachable Array_sort a ->
  Double.dragState (Double.overlay a) = Some d ->
  (x1 (Double.dragBBox d e) - x0 (Double.dragBBox d e) <? 0.01)%float = true \/
  (y1 (Double.dragBBox d e) - y0 (Double.dragBBox d e) <? 0.01)%float = true ->
  let s := Double.overlay a in
  let a' := Double.handle Array_sort (Double.MouseUp e) a in
  Double.overlay a'
  = Double.mkOverlay (Double.tooltip s) ∅ None (Double.labelInput s) None None
                     (Double.pendingWordsRef s) (Double.capturedTextRef s) /\
  Double.Idle (Double.overlay a') /\
  Double.store a' = Double.store a /\ Double.props a' = Double.props a.
Proof.
  intros Hr Hd Hsmall s a'.
  assert (Hp : Double.pendingRect s = None).
  { destruct (double_drag_excludes_pending Array_sort a Hr) as [H|H]; [|exact H].
    unfold s. congruence. }
  assert (Ht : Double.tooSmall (Double.dragBBox d e) = true).
  { unfold Double.tooSmall, Double.MIN_RECT. apply orb_true_iff. exact Hsmall. }
  assert (Ho : Double.overlay a'
               = Double.mkOverlay (Double.tooltip s) ∅ None (Double.labelInput s)
                   None None (Double.pendingWordsRef s) (Double.capturedTextRef s)).
  { unfold a'. simpl. unfold Double.handleMouseUp. fold s. unfold s at 1.
    rewrite Hd, Ht. rewrite Hp. reflexivity. }
  split; [exact Ho|]. split; [|split; reflexivity].
  rewrite Ho. repeat split.
Qed.

Lemma C5_small_drag_discarded_witness :
  Double.Idle
    (Double.overlay
       (Double.handle Double.insertionSort (Double.MouseUp (Double.pointerAt 4 1000 true))
          (Double.handle Double.insertionSort
             (Double.MouseDown (Double.pointerAt 0 500 true))
             (Double.mounted Double.fieldPage initialFieldState)))).
Proof.
  apply (C5_small_drag_discarded Double.insertionSort
           (Double.handle Double.insertionSort
              (Double.MouseDown (Double.pointerAt 0 500 true))
              (Double.mounted Double.fieldPage initialFieldState))
           (Double.pointerAt 4 1000 true)
           (Double.mkDrag (Double.mkPoint 0 0.5) (Double.mkPoint 0 0.5))).
  - apply Double.reach_step; [apply Double.reach_mount | reflexivity].
  - vm_compute. reflexivity.
  - left. vm_compute. reflexivity.
Defined.

(** C6. A click on a word while the label prompt of a drawn rectangle is
    open: [handleWordClick] selects the word and closes the prompt but
    keeps the pending rectangle.  Both transient states are active at
    once; the prompt is closed and, a rectangle being pending, the
    selection bar is not offered, so neither can be committed or
    cancelled.  A change of mode after that clears neither. *)
Theorem C6_word_click_keeps_pending_rect (Array_sort : Double.engine) :
  let a := Double.play Array_sort Double.drawThenClick
             (Double.mounted Double.fieldPage initialFieldState) in
  Double.reachable Array_sort a /\
  Double.selectedIds (Double.overlay a) = {[ "1-0"%string ]} /\
  Double.pendingRect (Double.overlay a) = Some Double.drawnRect /\
  (Double.wordsActive (Double.overlay a) /\ Double.rectActive (Double.overlay a)) /\
  Double.labelPopup (Double.overlay a) = None /\
  Double.hasWordSelection (Double.props a) (Double.overlay a) = false /\
  (let a' := Double.handle Array_sort (Double.Render Double.viewPage) a in
   Double.mode (Double.props a') = none /\
   Double.wordsActive (Double.overlay a') /\ Double.rectActive (Double.overlay a')).
Proof.
  intros a.
  assert (Hsel : Double.selectedIds (Double.overlay a) = {[ "1-0"%string ]})
    by (vm_compute; reflexivity).
  assert (Hrect : Double.pendingRect (Double.overlay a) = Some Double.drawnRect)
    by (vm_compute; reflexivity).
  assert (Hw : Double.wordsActive (Double.overlay a)).
  { unfold Double.wordsActive. rewrite Hsel. apply non_empty_singleton_L. }
  assert (Hr : Double.rectActive (Double.overlay a)).
  { unfold Double.rectActive. rewrite Hrect. discriminate. }
  split; [apply double_play_reachable, Double.reach_mount|].
  split; [exact Hsel|]. split; [exact Hrect|]. split; [split; assumption|].
  split; [vm_compute; reflexivity|].
  split.
  - unfold Double.hasWordSelection. rewrite Hrect. apply andb_false_r.
  - repeat split; assumption.
Qed.

(** X17. A pending rectangle has passed the size test: in every state the
    overlay can reach, neither the width nor the height of a rectangle
    that waits for its label, subtracted as the code subtracts them, is
    below 0.01; and no drag is in progress while it waits. *)
Theorem pending_rect_is_large (Array_sort : Double.engine) (a : Double.App)
    (r : OCRBBoxOf float) :
  Double.reachable Array_sort a ->
  Double.pendingRect (Double.overlay a) = Some r ->
  (x1 r - x0 r <? 0.01)%float = false /\ (y1 r - y0 r <? 0.01)%float = false /\
  Double.dragState (Double.overlay a) = None.
Proof.
  intros Ha Hr. pose proof (double_pending_rect_size Array_sort a Ha r Hr) as Ht.
  unfold Double.tooSmall, Double.MIN_RECT in Ht. apply orb_false_iff in Ht.
  destruct Ht as [Hx Hy]. split; [exact Hx|]. split; [exact Hy|].
  destruct (double_drag_excludes_pending Array_sort a Ha) as [H|H]; [exact H|].
  congruence.
Qed.

Lemma pending_rect_is_large_witness :
  (x1 Double.drawnRect - x0 Double.drawnRect <? 0.01)%float = false.
Proof.
  apply (pending_rect_is_large Double.insertionSort
           (Double.play Double.insertionSort Double.drawThenClick
              (Double.mounted Double.fieldPage initialFieldState))
           Double.drawnRect).
  - apply double_play_reachable, Double.reach_mount.
  - vm_compute. reflexivity.
Defined.
